(** * dc2json2dc: a JSON codec for dataclass instances

    Shallow embedding of [src/dc2json2dc/json.py]: the encoder hook
    [JSONDataclassEncoder.default], the decoder hook
    [AbstractJSONDataclassDecoder.object_hook] and the registry builder
    [_build_serializable_classes_dict], together with the small part of
    Python's [json] and [dataclasses] modules they are plugged into.

    JSON text is represented by its syntax tree.  A float is represented by
    the numeral the [json] module writes for it; no arithmetic on floats is
    modelled.  What calling a registered class does is a parameter of the
    decoder: the class and its constructor are the user's code. *)

From Stdlib Require Import String List ZArith Bool Lia Permutation DecimalString.
Import ListNotations.
Local Open Scope string_scope.
Local Open Scope list_scope.

(** ** Exceptions and the result monad *)

(** The exception classes the codec and its substrate raise, and any other
    class, by its name, for what user code raises. *)
Inductive exc_class :=
| ValueError_ | TypeError_ | AttributeError_ | RecursionError_
| OtherError_ (name : string).

(** An exception object: its class, its message and, for [raise ... from e],
    its cause. *)
Local Unset Elimination Schemes.
Inductive pyexc :=
| PyExc (cls : exc_class) (msg : string) (cause : option pyexc).
Local Set Elimination Schemes.

Definition ValueError (msg : string) : pyexc := PyExc ValueError_ msg None.
Definition TypeError (msg : string) : pyexc := PyExc TypeError_ msg None.
Definition AttributeError (msg : string) : pyexc := PyExc AttributeError_ msg None.
Definition RecursionError : pyexc :=
  PyExc RecursionError_ "maximum recursion depth exceeded" None.

Definition exc_class_of (e : pyexc) : exc_class :=
  match e with PyExc c _ _ => c end.

Inductive res (A : Type) :=
| Ok (a : A)
| Raise (e : pyexc).
Arguments Ok {A} a.
Arguments Raise {A} e.

Definition bind {A B} (m : res A) (k : A -> res B) : res B :=
  match m with
  | Ok a => k a
  | Raise e => Raise e
  end.

Notation "x <- m ;; k" := (bind m (fun x => k))
  (at level 61, m at next level, right associativity).
Notation "' p <- m ;; k" := (bind m (fun x => let 'p := x in k))
  (at level 61, p pattern, m at next level, right associativity).

(** Left-to-right traversal that stops at the first exception. *)
Definition mapM {A B} (f : A -> res B) : list A -> res (list B) :=
  fix go (l : list A) : res (list B) :=
    match l with
    | [] => Ok []
    | a :: l' => b <- f a ;; bs <- go l' ;; Ok (b :: bs)
    end.

(** ** Insertion-ordered dictionaries with string keys *)

Section Dict.
Context {V : Type}.

Definition dict := list (string * V).

Definition keys (d : dict) : list string := map fst d.

Fixpoint dict_get (d : dict) (k : string) : option V :=
  match d with
  | [] => None
  | (k', v) :: d' => if String.eqb k' k then Some v else dict_get d' k
  end.

Definition dict_mem (d : dict) (k : string) : bool :=
  match dict_get d k with Some _ => true | None => false end.

(** [d[k] = v]: an existing key keeps its position, a new one goes last. *)
Fixpoint dict_set (d : dict) (k : string) (v : V) : dict :=
  match d with
  | [] => [(k, v)]
  | (k', v') :: d' =>
      if String.eqb k' k then (k', v) :: d' else (k', v') :: dict_set d' k v
  end.

(** [d.pop(k, _sentinel)]: [None] stands for the sentinel. *)
Fixpoint dict_pop (d : dict) (k : string) : option (V * dict) :=
  match d with
  | [] => None
  | (k', v) :: d' =>
      if String.eqb k' k then Some (v, d')
      else match dict_pop d' k with
           | Some (x, r) => Some (x, (k', v) :: r)
           | None => None
           end
  end.

(** [d] without its entries under the key [k]. *)
Definition without (k : string) (d : dict) : dict :=
  filter (fun kv => negb (String.eqb (fst kv) k)) d.

(** [d.update(pairs)]. *)
Definition dict_update (d : dict) (ps : list (string * V)) : dict :=
  fold_left (fun acc kv => dict_set acc (fst kv) (snd kv)) ps d.

(** [dict(pairs)]. *)
Definition dict_of_pairs (ps : list (string * V)) : dict :=
  dict_update [] ps.
End Dict.
Arguments dict V : clear implicits.

(** ** Classes and values *)

(** A dataclass field as [dataclasses.fields] reports it: its name, its
    [init] flag and its default, if any: the [default], or what the
    [default_factory] returns, in which case [ffactory] is set. *)
Record field (V : Type) := mkField {
  fname : string;
  finit : bool;
  fdefault : option V;
  ffactory : bool
}.
Arguments mkField {V}.
Arguments fname {V}.
Arguments finit {V}.
Arguments fdefault {V}.
Arguments ffactory {V}.

(** A class object.  [cfields] is [None] for a class that is not a
    dataclass.  [cinitvars] lists the [InitVar] pseudo-fields, which are
    parameters of the generated [__init__] but no fields; the flag says
    whether the pseudo-field has a default. *)
Record pyclass (V : Type) := mkClass {
  cname : string;
  cfields : option (list (field V));
  cinitvars : list (string * bool)
}.
Arguments mkClass {V}.
Arguments cname {V}.
Arguments cfields {V}.
Arguments cinitvars {V}.

(** Iterables that are neither mappings nor handled by the [json] module. *)
Inductive iterable_kind := KSet | KFrozenSet | KGenerator | KRange.

(** A float, by the numeral that the [json] module writes for it and reads
    back as the same float: [float.__repr__], or [NaN], [Infinity],
    [-Infinity]. *)
Definition pyfloat := string.

(** A dict key.  [KOther] is a hashable object of another type, such as a
    tuple. *)
Inductive pykey :=
| KStr (s : string)
| KInt (z : Z)
| KFloat (x : pyfloat)
| KBool (b : bool)
| KNone
| KOther (tyname : string).

Local Unset Elimination Schemes.
Inductive pyval :=
| PyNone
| PyBool (b : bool)
| PyInt (z : Z)
| PyFloat (x : pyfloat)
| PyStr (s : string)
| PyList (l : list pyval)
| PyTuple (l : list pyval)
| PyDict (d : dict pyval)                    (* a dict whose keys are all strings *)
| PyDictK (items : list (pykey * pyval))     (* a dict with a key that is no string *)
| PyMapping (d : dict pyval)                 (* a Mapping that is no dict; string keys *)
| PyIterable (k : iterable_kind) (l : list pyval)  (* elements in iteration order *)
| PyInst (cls : pyclass pyval) (attrs : dict pyval) (* instance and its attributes *)
| PyType (cls : pyclass pyval)                (* a class object *)
| PyObject (tyname : string).                 (* any other object *)

Abbreviation class := (pyclass pyval).

(** [JNum] is a number without fraction or exponent, [JFloat] one with, or
    one of [NaN], [Infinity], [-Infinity]. *)
Inductive json :=
| JNull
| JBool (b : bool)
| JNum (z : Z)
| JFloat (x : pyfloat)
| JStr (s : string)
| JArr (l : list json)
| JObj (members : list (string * json)).
Local Set Elimination Schemes.

(** [type(v).__name__] *)
Definition iterable_type_name (k : iterable_kind) : string :=
  match k with
  | KSet => "set"
  | KFrozenSet => "frozenset"
  | KGenerator => "generator"
  | KRange => "range"
  end.

Definition type_name (v : pyval) : string :=
  match v with
  | PyNone => "NoneType"
  | PyBool _ => "bool"
  | PyInt _ => "int"
  | PyFloat _ => "float"
  | PyStr _ => "str"
  | PyList _ => "list"
  | PyTuple _ => "tuple"
  | PyDict _ | PyDictK _ => "dict"
  | PyMapping _ => "mappingproxy"
  | PyIterable k _ => iterable_type_name k
  | PyInst c _ => cname c
  | PyType _ => "type"
  | PyObject n => n
  end.

(** ** The part of [dataclasses] the codec relies on *)

Definition is_dataclass (c : class) : bool :=
  match cfields c with Some _ => true | None => false end.

(** [dataclasses.fields(c)] *)
Definition fields (c : class) : res (list (field pyval)) :=
  match cfields c with
  | Some fs => Ok fs
  | None => Raise (TypeError "must be called with a dataclass type or instance")
  end.

(** [[f for f in dataclasses.fields(c) if f.init]]: the participating fields. *)
Definition init_fields (c : class) : res (list (field pyval)) :=
  fs <- fields c ;; Ok (filter finit fs).

(** [getattr(obj, name)] on an instance of [c] whose attributes are [attrs]:
    [__class__] is the class object whatever the instance holds. *)
Definition getattr (c : class) (attrs : dict pyval) (name : string) : res pyval :=
  if String.eqb name "__class__" then Ok (PyType c)
  else
    match dict_get attrs name with
    | Some v => Ok v
    | None =>
        Raise (AttributeError
                 ("'" ++ cname c ++ "' object has no attribute '" ++ name ++ "'")%string)
    end.

(** The class [type], the class of class objects. *)
Definition type_class : class := mkClass "type" None [].

(** [getattr(c, name)] on the class object [c]: a dataclass keeps the plain
    default of a field as a class attribute of that name. *)
Definition class_getattr (c : class) (name : string) : res pyval :=
  if String.eqb name "__class__" then Ok (PyType type_class)
  else
    match
      match cfields c with
      | Some fs =>
          match find (fun f => String.eqb (fname f) name) fs with
          | Some f => if ffactory f then None else fdefault f
          | None => None
          end
      | None => None
      end
    with
    | Some v => Ok v
    | None =>
        Raise (AttributeError
                 ("type object '" ++ cname c ++ "' has no attribute '" ++ name
                    ++ "'")%string)
    end.

(** *** Calling a class *)

(** What calling a class with keyword arguments does: it raises, or it
    returns an instance of the class, given by its attributes. *)
Definition constructor := class -> dict pyval -> res (dict pyval).

(** Parameters of the [__init__] that [@dataclass] generates: the
    participating fields and the [InitVar] pseudo-fields. *)
Definition init_params (c : class) : list string :=
  match cfields c with
  | Some fs => map fname (filter finit fs) ++ map fst (cinitvars c)
  | None => []
  end.

(** Those without a default. *)
Definition required_params (c : class) : list string :=
  match cfields c with
  | Some fs =>
      map fname (filter (fun f => finit f && match fdefault f with
                                             | Some _ => false
                                             | None => true
                                             end) fs)
      ++ map fst (filter (fun iv => negb (snd iv)) (cinitvars c))
  | None => []
  end.

(** The interpreter's list of missing arguments: ['a'], ['a' and 'b'],
    ['a', 'b', and 'c']. *)
Definition quoted (s : string) : string := ("'" ++ s ++ "'")%string.

Definition missing_names (names : list string) : string :=
  match names with
  | [] => ""
  | [a] => quoted a
  | [a; b] => (quoted a ++ " and " ++ quoted b)%string
  | _ =>
      (String.concat ", " (map quoted (removelast names)) ++ ", and "
         ++ quoted (last names ""))%string
  end.

Definition missing_arguments (c : class) (names : list string) : pyexc :=
  TypeError (cname c ++ ".__init__() missing "
               ++ NilZero.string_of_uint (Nat.to_uint (length names))
               ++ " required positional argument"
               ++ (match names with [_] => "" | _ => "s" end) ++ ": "
               ++ missing_names names)%string.

(** The fields are assigned in declaration order: a participating field
    from its argument or else its default, another field from its default,
    if it has one. *)
Fixpoint assign_fields (fs : list (field pyval)) (kwargs : dict pyval)
  : dict pyval :=
  match fs with
  | [] => []
  | f :: fs' =>
      match (if finit f then dict_get kwargs (fname f) else None), fdefault f with
      | Some v, _ | None, Some v => (fname f, v) :: assign_fields fs' kwargs
      | None, None => assign_fields fs' kwargs
      end
  end.

(** The generated [__init__] up to the call of [__post_init__]: a keyword
    that is no parameter is refused, then a missing parameter without
    default, then the fields are assigned.  The missing parameters are
    listed fields first, then [InitVar]s, each in declaration order; the
    interpreter lists both in one declaration order, which is the same list
    when no field is missing, as in every call the decoder makes once the
    fields have been popped.  Keyword-only parameters are not told apart. *)
Definition bind_arguments (c : class) (kwargs : dict pyval) : res (dict pyval) :=
  match find (fun k => negb (existsb (String.eqb k) (init_params c))) (keys kwargs) with
  | Some k =>
      Raise (TypeError
               (cname c ++ ".__init__() got an unexpected keyword argument '"
                  ++ k ++ "'")%string)
  | None =>
      match filter (fun p => negb (dict_mem kwargs p)) (required_params c) with
      | (_ :: _) as missing => Raise (missing_arguments c missing)
      | [] =>
          match cfields c with
          | Some fs => Ok (assign_fields fs kwargs)
          | None => Ok []
          end
      end
  end.

(** [__post_init__(self, ...)]: from the attributes set by [__init__] and
    the arguments of the call, it raises or leaves the attributes it
    returns. *)
Definition post_init := dict pyval -> dict pyval -> res (dict pyval).

(** The constructor of a dataclass whose [__init__] is the generated one,
    with or without a [__post_init__]. *)
Definition generated_init (post : option post_init) : constructor :=
  fun c kwargs =>
    attrs <- bind_arguments c kwargs ;;
    match post with
    | None => Ok attrs
    | Some p => p attrs kwargs
    end.

(** ** Encoder *)

Definition TAG : string := "__class__".

(** [JSONDataclassEncoder.default] *)
Definition default (obj : pyval) : res pyval :=
  match obj with
  | PyInst c attrs =>
      if is_dataclass c then
        cls_flds <- init_fields c ;;
        items <- mapM (fun f => v <- getattr c attrs (fname f) ;;
                                Ok (fname f, v)) cls_flds ;;
        Ok (PyDict (dict_update [(TAG, PyStr (cname c))] items))
      else
        Raise (TypeError
                 ("Object of type " ++ cname c ++ " is not JSON serializable")%string)
  | PyType c =>
      (* [is_dataclass] holds of a dataclass itself as of its instances *)
      if is_dataclass c then
        cls_flds <- init_fields c ;;
        items <- mapM (fun f => v <- class_getattr c (fname f) ;;
                                Ok (fname f, v)) cls_flds ;;
        Ok (PyDict (dict_update [(TAG, PyStr "type")] items))
      else
        Raise (TypeError "Object of type type is not JSON serializable")
  | PyDict d | PyMapping d => Ok (PyDict (dict_of_pairs d))
  | PyDictK items => Ok (PyDictK items)
  | PyList l | PyTuple l | PyIterable _ l => Ok (PyList l)
  | PyStr s => Ok (PyList (map (fun a => PyStr (String a "")) (list_ascii_of_string s)))
  | PyNone | PyBool _ | PyInt _ | PyFloat _ | PyObject _ =>
      Raise (TypeError
               ("Object of type " ++ type_name obj ++ " is not JSON serializable")%string)
  end.

(** The member name the [json] module writes for a dict key. *)
Definition json_key (k : pykey) : res string :=
  match k with
  | KStr s => Ok s
  | KFloat x => Ok x
  | KBool true => Ok "true"
  | KBool false => Ok "false"
  | KNone => Ok "null"
  | KInt z => Ok (NilZero.string_of_int (Z.to_int z))
  | KOther tyname =>
      Raise (TypeError
               ("keys must be str, int, float, bool or None, not " ++ tyname)%string)
  end.

(** [json.dumps(o, cls=JSONDataclassEncoder)], up to the rendering of the
    tree as text.  The [json] module writes strings, numbers, booleans,
    [None], lists, tuples and dicts itself and passes everything else to
    [default], whose result it encodes in turn.  [depth] is the interpreter's
    recursion limit. *)
Fixpoint dumps (depth : nat) (o : pyval) : res json :=
  match depth with
  | O => Raise RecursionError
  | S n =>
      match o with
      | PyNone => Ok JNull
      | PyBool b => Ok (JBool b)
      | PyInt z => Ok (JNum z)
      | PyFloat x => Ok (JFloat x)
      | PyStr s => Ok (JStr s)
      | PyList l | PyTuple l => js <- mapM (dumps n) l ;; Ok (JArr js)
      | PyDict d =>
          ms <- mapM (fun kv => j <- dumps n (snd kv) ;; Ok (fst kv, j)) d ;;
          Ok (JObj ms)
      | PyDictK items =>
          ms <- mapM (fun kv => k <- json_key (fst kv) ;;
                                j <- dumps n (snd kv) ;; Ok (k, j)) items ;;
          Ok (JObj ms)
      | PyMapping _ | PyIterable _ _ | PyInst _ _ | PyType _ | PyObject _ =>
          o' <- default o ;; dumps n o'
      end
  end.

(** [o] encodes to [j] when the recursion limit is high enough. *)
Definition encodes (o : pyval) (j : json) : Prop :=
  exists n, forall m, n <= m -> dumps m o = Ok j.

(** ** Decoder *)

(** What a delegate hook does with the dict it is given: it returns that very
    object, possibly after changing it in place, or another object, or it
    raises. *)
Inductive hook_result :=
| HookSame (obj' : dict pyval)
| HookOther (new_obj : pyval)
| HookRaise (e : pyexc).

Definition hook := dict pyval -> hook_result.

(** The loop over [cls_flds] in [object_hook]: pops every field from [obj]
    into [kwargs]; returns [kwargs] and what is left of [obj]. *)
Fixpoint pop_fields (classname : string) (cls_flds : list (field pyval))
         (obj kwargs : dict pyval) : res (dict pyval * dict pyval) :=
  match cls_flds with
  | [] => Ok (kwargs, obj)
  | fld :: rest =>
      match dict_pop obj (fname fld) with
      | None =>
          Raise (ValueError
                   ("Field " ++ fname fld ++ " not specified for class "
                      ++ classname)%string)
      | Some (val, obj') =>
          pop_fields classname rest obj' (dict_set kwargs (fname fld) val)
      end
  end.

Section Decoder.
(** What calling a registered class does. *)
Variable construct : constructor.
(** [self.serializable_classes] and [self.delegate_object_hook] *)
Variable serializable_classes : dict class.
Variable delegate_object_hook : option hook.

(** [object_hook] from the point where the delegate has been consulted. *)
Definition resolve (obj : dict pyval) : res pyval :=
  match dict_pop obj TAG with
  | None => Ok (PyDict obj)
  | Some (classname, obj) =>
      match classname with
      | PyStr classname =>
          match dict_get serializable_classes classname with
          | None =>
              Raise (TypeError
                       ("Class " ++ classname
                          ++ " not registered for deserialization.")%string)
          | Some cls =>
              cls_flds <- init_fields cls ;;
              '(kwargs, obj) <- pop_fields classname cls_flds obj [] ;;
              match obj with
              | _ :: _ =>
                  Raise (ValueError
                           ("Extraneous values specified for dataclass "
                              ++ classname ++ ": "
                              ++ String.concat " " (keys obj))%string)
              | [] =>
                  match construct cls kwargs with
                  | Ok attrs => Ok (PyInst cls attrs)
                  | Raise e =>
                      Raise (PyExc ValueError_
                               ("Instantiation of dataclass " ++ cname cls
                                  ++ " failed. (Does it specify InitVars?)")%string
                               (Some e))
                  end
              end
          end
      | _ =>
          Raise (ValueError
                   ("Invalid type for class name (__class__): expected str, found "
                      ++ type_name classname)%string)
      end
  end.

(** [AbstractJSONDataclassDecoder.object_hook] *)
Definition object_hook (obj : dict pyval) : res pyval :=
  match delegate_object_hook with
  | None => resolve obj
  | Some h =>
      match h obj with
      | HookOther new_obj => Ok new_obj
      | HookSame obj' => resolve obj'
      | HookRaise e => Raise e
      end
  end.

(** [json.loads] on a syntax tree: the parser builds each JSON object as a
    dict, after its member values, and hands it to [object_hook] before it
    goes on with the enclosing container. *)
Fixpoint parse (j : json) : res pyval :=
  match j with
  | JNull => Ok PyNone
  | JBool b => Ok (PyBool b)
  | JNum z => Ok (PyInt z)
  | JFloat x => Ok (PyFloat x)
  | JStr s => Ok (PyStr s)
  | JArr l => vs <- mapM parse l ;; Ok (PyList vs)
  | JObj ms =>
      pairs <- mapM (fun kv => v <- parse (snd kv) ;; Ok (fst kv, v)) ms ;;
      object_hook (dict_of_pairs pairs)
  end.
End Decoder.

(** ** Registry *)

(** The loop of [_build_serializable_classes_dict] over [class_list]. *)
Fixpoint build_from (result : dict class) (class_list : list class)
  : res (dict class) :=
  match class_list with
  | [] => Ok result
  | cls :: rest =>
      if dict_mem result (cname cls) then
        Raise (ValueError ("Duplicate name " ++ cname cls ++ " in class_list")%string)
      else if negb (is_dataclass cls) then
        Raise (TypeError (cname cls ++ " is not a dataclass")%string)
      else build_from (dict_set result (cname cls) cls) rest
  end.

Definition _build_serializable_classes_dict (class_list : list class)
  : res (dict class) :=
  build_from [] class_list.

(** [json.loads(text, cls=JSONDataclassDecoder, class_list=..., object_hook=...)] *)
Definition loads (construct : constructor) (class_list : list class)
           (delegate : option hook) (j : json) : res pyval :=
  reg <- _build_serializable_classes_dict class_list ;;
  parse construct reg delegate j.

(** ** Induction over nested values *)

Section Induction.
Variable P : pyval -> Prop.

(** The defaults of the fields of a class. *)
Definition on_defaults (c : class) : Prop :=
  Forall (fun f => match fdefault f with Some v => P v | None => True end)
         (match cfields c with Some fs => fs | None => [] end).

Hypothesis HNone : P PyNone.
Hypothesis HBool : forall b, P (PyBool b).
Hypothesis HInt : forall z, P (PyInt z).
Hypothesis HFloat : forall x, P (PyFloat x).
Hypothesis HStr : forall s, P (PyStr s).
Hypothesis HList : forall l, Forall P l -> P (PyList l).
Hypothesis HTuple : forall l, Forall P l -> P (PyTuple l).
Hypothesis HDict : forall d, Forall (fun kv => P (snd kv)) d -> P (PyDict d).
Hypothesis HDictK : forall items, Forall (fun kv => P (snd kv)) items -> P (PyDictK items).
Hypothesis HMapping : forall d, Forall (fun kv => P (snd kv)) d -> P (PyMapping d).
Hypothesis HIterable : forall k l, Forall P l -> P (PyIterable k l).
Hypothesis HInst : forall c attrs,
  on_defaults c -> Forall (fun kv => P (snd kv)) attrs -> P (PyInst c attrs).
Hypothesis HType : forall c, on_defaults c -> P (PyType c).
Hypothesis HObject : forall n, P (PyObject n).

Fixpoint pyval_ind (v : pyval) : P v :=
  let all :=
    fix all (l : list pyval) : Forall P l :=
      match l with
      | [] => Forall_nil _
      | x :: l' => Forall_cons x (pyval_ind x) (all l')
      end in
  let all_snd :=
    fix all_snd (d : dict pyval) : Forall (fun kv => P (snd kv)) d :=
      match d with
      | [] => Forall_nil _
      | kv :: d' => Forall_cons kv (pyval_ind (snd kv)) (all_snd d')
      end in
  let all_items :=
    fix all_items (d : list (pykey * pyval)) : Forall (fun kv => P (snd kv)) d :=
      match d with
      | [] => Forall_nil _
      | kv :: d' => Forall_cons kv (pyval_ind (snd kv)) (all_items d')
      end in
  let all_defaults :=
    fix all_defaults (fs : list (field pyval))
      : Forall (fun f => match fdefault f with Some v => P v | None => True end) fs :=
      match fs with
      | [] => Forall_nil _
      | f :: fs' =>
          Forall_cons f
            (match f as f0
                   return match fdefault f0 with Some v => P v | None => True end
             with
             | mkField _ _ (Some v) _ => pyval_ind v
             | mkField _ _ None _ => I
             end)
            (all_defaults fs')
      end in
  let of_class (c : class) : on_defaults c :=
    match c as c0 return on_defaults c0 with
    | mkClass _ (Some fs) _ => all_defaults fs
    | mkClass _ None _ => Forall_nil _
    end in
  match v with
  | PyNone => HNone
  | PyBool b => HBool b
  | PyInt z => HInt z
  | PyFloat x => HFloat x
  | PyStr s => HStr s
  | PyList l => HList l (all l)
  | PyTuple l => HTuple l (all l)
  | PyDict d => HDict d (all_snd d)
  | PyDictK items => HDictK items (all_items items)
  | PyMapping d => HMapping d (all_snd d)
  | PyIterable k l => HIterable k l (all l)
  | PyInst c attrs => HInst c attrs (of_class c) (all_snd attrs)
  | PyType c => HType c (of_class c)
  | PyObject n => HObject n
  end.
End Induction.

Section JsonInduction.
Variable P : json -> Prop.
Hypothesis HNull : P JNull.
Hypothesis HBool : forall b, P (JBool b).
Hypothesis HNum : forall z, P (JNum z).
Hypothesis HFloat : forall x, P (JFloat x).
Hypothesis HStr : forall s, P (JStr s).
Hypothesis HArr : forall l, Forall P l -> P (JArr l).
Hypothesis HObj : forall ms, Forall (fun kv => P (snd kv)) ms -> P (JObj ms).

Fixpoint json_ind (j : json) : P j :=
  match j with
  | JNull => HNull
  | JBool b => HBool b
  | JNum z => HNum z
  | JFloat x => HFloat x
  | JStr s => HStr s
  | JArr l =>
      HArr l ((fix all (l : list json) : Forall P l :=
                 match l with
                 | [] => Forall_nil _
                 | x :: l' => Forall_cons x (json_ind x) (all l')
                 end) l)
  | JObj ms =>
      HObj ms ((fix all (d : list (string * json)) : Forall (fun kv => P (snd kv)) d :=
                  match d with
                  | [] => Forall_nil _
                  | kv :: d' => Forall_cons kv (json_ind (snd kv)) (all d')
                  end) ms)
  end.
End JsonInduction.

(** ** Vocabulary of the specification *)

(** The specification names the failures of the codec; in the code they are
    [ValueError]s and [TypeError]s told apart by their messages. *)
Definition DuplicateNameError (name : string) : pyexc :=
  ValueError ("Duplicate name " ++ name ++ " in class_list")%string.

Definition NotARecordTypeError (name : string) : pyexc :=
  TypeError (name ++ " is not a dataclass")%string.

Definition InvalidTagError (tag : pyval) : pyexc :=
  ValueError ("Invalid type for class name (__class__): expected str, found "
                ++ type_name tag)%string.

Definition UnregisteredTypeError (classname : string) : pyexc :=
  TypeError ("Class " ++ classname ++ " not registered for deserialization.")%string.

Definition MissingFieldError (fld classname : string) : pyexc :=
  ValueError ("Field " ++ fld ++ " not specified for class " ++ classname)%string.

Definition ExtraneousFieldError (classname : string) (leftover : list string) : pyexc :=
  ValueError ("Extraneous values specified for dataclass " ++ classname ++ ": "
                ++ String.concat " " leftover)%string.

(** Names of the participating fields, in declaration order. *)
Definition participating (c : class) : list string :=
  match cfields c with
  | Some fs => map fname (filter finit fs)
  | None => []
  end.

(** The data-model invariants of a record type: it is a dataclass, its
    participating field names are distinct and none is the tag key. *)
Definition well_formed (c : class) : Prop :=
  is_dataclass c = true /\ NoDup (participating c) /\ ~ In TAG (participating c).

(** Every field participates and every [InitVar] has a default. *)
Definition plain_class (c : class) : Prop :=
  match cfields c with
  | Some fs => forallb finit fs = true
  | None => False
  end /\ forallb snd (cinitvars c) = true.

Definition All {A} (P : A -> Prop) (l : list A) : Prop :=
  fold_right (fun x acc => P x /\ acc) True l.

(** The participating fields of an instance with their values, in
    declaration order: what [default] puts after the tag. *)
Definition field_items (c : class) (attrs : dict pyval) : res (dict pyval) :=
  mapM (fun name => v <- getattr c attrs name ;; Ok (name, v))
       (participating c).

(** The constructor of every class is the generated [__init__], and no
    class has a [__post_init__]. *)
Definition plain_init : constructor := generated_init None.

(** The instance is what the constructor of its class builds from the
    instance's own participating field values. *)
Definition rebuilt (construct : constructor) (c : class) (attrs : dict pyval) : Prop :=
  exists kwargs,
    field_items c attrs = Ok kwargs /\ construct c kwargs = Ok attrs.

(** Values that JSON represents without loss, given the registry [reg]:
    [None], booleans, integers, floats but NaN (which equals nothing, itself
    included), strings, lists of such values, dicts of such values whose keys
    are strings other than the tag, and instances of registered well-formed
    classes that their constructor rebuilds, with such values in their
    participating fields. *)
Fixpoint representable (construct : constructor) (reg : dict class) (v : pyval)
  : Prop :=
  match v with
  | PyNone | PyBool _ | PyInt _ | PyStr _ => True
  | PyFloat x => x <> "NaN"
  | PyList l => All (representable construct reg) l
  | PyDict d =>
      NoDup (keys d) /\ ~ In TAG (keys d)
      /\ All (fun kv => representable construct reg (snd kv)) d
  | PyInst c attrs =>
      dict_get reg (cname c) = Some c /\ well_formed c /\ rebuilt construct c attrs
      /\ All (fun kv => In (fst kv) (participating c) ->
                        representable construct reg (snd kv))
             attrs
  | PyTuple _ | PyDictK _ | PyMapping _ | PyIterable _ _ | PyType _ | PyObject _ =>
      False
  end.

(** [j] is the encoding of [v] and decodes to [v] again. *)
Definition round_trips (construct : constructor) (reg : dict class)
           (v : pyval) (j : json) : Prop :=
  encodes v j /\ parse construct reg None j = Ok v.

(** The delegate hook, if any, hands [obj] back untouched. *)
Definition passes (h : option hook) (obj : dict pyval) : Prop :=
  match h with
  | None => True
  | Some h => h obj = HookSame obj
  end.

(** Decoding of the member values of a JSON object, as [parse] does it. *)
Definition parse_members (construct : constructor) (reg : dict class)
           (h : option hook) (ms : list (string * json))
  : res (list (string * pyval)) :=
  mapM (fun kv => v <- parse construct reg h (snd kv) ;; Ok (fst kv, v)) ms.

(** [j0] occurs in the document [j]. *)
Inductive occurs_in (j0 : json) : json -> Prop :=
| occurs_here : occurs_in j0 j0
| occurs_arr l j : In j l -> occurs_in j0 j -> occurs_in j0 (JArr l)
| occurs_obj ms k j : In (k, j) ms -> occurs_in j0 j -> occurs_in j0 (JObj ms).

(** Keys of a JSON object, in the order they are written. *)
Definition json_keys (j : json) : list string :=
  match j with
  | JObj ms => map fst ms
  | _ => []
  end.

(** Entries of [obj] that are neither the tag nor one of [names]. *)
Definition leftover (names : list string) (obj : dict pyval) : dict pyval :=
  filter (fun kv => negb (existsb (String.eqb (fst kv)) (TAG :: names))) obj.

(** ** Example classes *)

Ltac solve_well_formed :=
  split; [reflexivity
         | split; [repeat constructor; simpl; intuition discriminate
                  | simpl; intuition discriminate]].


(** A self-referencing record type with the two fields of the test
    document, as [DataClassWithSelf] of the test-suite. *)
Definition class_A : class :=
  mkClass "A" (Some [mkField "id" true None false; mkField "ref" true None false]) [].

Definition class_Point : class :=
  mkClass "Point" (Some [mkField "x" true None false; mkField "y" true None false]) [].

(** A record type with a field that does not participate:
    [hits: int = field(init=False, default=0)]. *)
Definition class_Counter : class :=
  mkClass "Counter"
          (Some [mkField "name" true None false;
                 mkField "hits" false (Some (PyInt 0)) false]) [].

(** A class that is no dataclass. *)
Definition class_Plain (name : string) : class := mkClass name None [].

Definition nested_A_json : json :=
  JObj [("__class__", JStr "A"); ("id", JStr "1");
        ("ref", JObj [("__class__", JStr "A"); ("id", JStr "2"); ("ref", JNull)])].

Definition nested_A_value (A : class) : pyval :=
  PyInst A [("id", PyStr "1");
            ("ref", PyInst A [("id", PyStr "2"); ("ref", PyNone)])].

Definition point (x y : pyval) : pyval := PyInst class_Point [("x", x); ("y", y)].

Definition point_json (x y : json) : json :=
  JObj [("__class__", JStr "Point"); ("x", x); ("y", y)].

(** ** Further vocabulary *)

(** The registry that [_build_serializable_classes_dict] returns on success:
    every class under its name, in the order of [class_list]. *)
Definition registry_of (class_list : list class) : dict class :=
  map (fun c => (cname c, c)) class_list.

(** [json.loads] without [object_hook]: objects become dicts. *)
Fixpoint plain_loads (j : json) : pyval :=
  match j with
  | JNull => PyNone
  | JBool b => PyBool b
  | JNum z => PyInt z
  | JFloat x => PyFloat x
  | JStr s => PyStr s
  | JArr l => PyList (map plain_loads l)
  | JObj ms => PyDict (dict_of_pairs (map (fun kv => (fst kv, plain_loads (snd kv))) ms))
  end.

(** No object of the document has a member named ["__class__"]. *)
Fixpoint tag_free (j : json) : Prop :=
  match j with
  | JArr l => All tag_free l
  | JObj ms => ~ In TAG (keys ms) /\ All (fun kv => tag_free (snd kv)) ms
  | _ => True
  end.

(** The entries of [obj] under [names], in the order of [names]. *)
Definition entries_of (obj : dict pyval) (names : list string) : dict pyval :=
  flat_map (fun n => match dict_get obj n with
                     | Some v => [(n, v)]
                     | None => []
                     end) names.

(** The outcome is a result or an error that the encoder raises: a
    [TypeError] or an [AttributeError]. *)
Definition settled {A} (r : res A) : Prop :=
  match r with
  | Ok _ => True
  | Raise e => exc_class_of e = TypeError_ \/ exc_class_of e = AttributeError_
  end.

(** The dict comprehension of [recursive_pop]:
    [{k: f(v) for (k, v) in d.items() if k != key}]. *)
Definition pop_items (key : string) (f : pyval -> pyval) : dict pyval -> dict pyval :=
  fix items (d : dict pyval) : dict pyval :=
    match d with
    | [] => []
    | (k, v) :: d' =>
        if negb (String.eqb k key) then (k, f v) :: items d' else items d'
    end.

(** The same on a dict with other keys than strings, none of which equals
    the string [key]. *)
Definition is_key (key : string) (k : pykey) : bool :=
  match k with
  | KStr s => String.eqb s key
  | _ => false
  end.

Definition pop_items_k (key : string) (f : pyval -> pyval)
  : list (pykey * pyval) -> list (pykey * pyval) :=
  fix items (d : list (pykey * pyval)) : list (pykey * pyval) :=
    match d with
    | [] => []
    | (k, v) :: d' =>
        if negb (is_key key k) then (k, f v) :: items d' else items d'
    end.

(** [recursive_pop] of [tests/dataclasses_json.py]: [obj] without the key
    [key] in its dicts, down through dicts and lists. *)
Fixpoint recursive_pop (key : string) (obj : pyval) : pyval :=
  match obj with
  | PyDict d => PyDict (pop_items key (recursive_pop key) d)
  | PyDictK d => PyDictK (pop_items_k key (recursive_pop key) d)
  | PyList l => PyList (map (recursive_pop key) l)
  | _ => obj
  end.

(** No dict of [obj], down through dicts and lists, has the key [key]. *)
Fixpoint key_free (key : string) (obj : pyval) : Prop :=
  match obj with
  | PyDict d => ~ In key (keys d) /\ All (fun kv => key_free key (snd kv)) d
  | PyDictK d =>
      ~ In (KStr key) (map fst d) /\ All (fun kv => key_free key (snd kv)) d
  | PyList l => All (key_free key) l
  | _ => True
  end.

(** A record type with a construction-only parameter that has no default:
    [factor: InitVar[int]]. *)
Definition class_Scaled : class :=
  mkClass "Scaled" (Some [mkField "x" true None false]) [("factor", false)].


(** A [__post_init__] that resets the field [x]: [self.x = None]. *)
Definition resetting_post_init : post_init :=
  fun attrs _ => Ok (dict_set attrs "x" PyNone).

(** From some recursion limit on, the outcome of encoding [v] is the same and
    is not the exhaustion of the limit. *)
Definition settles (v : pyval) : Prop :=
  exists n r, settled r /\ forall m, n <= m -> dumps m v = r.

(** * Properties *)

Section Properties.
(** What calling a class does is arbitrary throughout. *)
Variable construct : constructor.


(** ** Traversals *)

Lemma bind_Ok {A B} (m : res A) (k : A -> res B) b :
  bind m k = Ok b -> exists a, m = Ok a /\ k a = Ok b.
Proof.
  destruct m as [a|e]; simpl; intros H; [eauto | discriminate].
Qed.

Lemma mapM_Forall2 {A B} (f : A -> res B) l l' :
  mapM f l = Ok l' <-> Forall2 (fun a b => f a = Ok b) l l'.
Proof.
  revert l'; induction l as [|a l IH]; intros l'; simpl.
  - split; intros H.
    + injection H as <-. constructor.
    + inversion H. reflexivity.
  - split; intros H.
    + apply bind_Ok in H as (b & Hb & H).
      apply bind_Ok in H as (bs & Hbs & H).
      injection H as <-. constructor; [assumption | now apply IH].
    + inversion H as [|? b ? bs Hb Hbs]; subst.
      rewrite Hb; simpl. apply IH in Hbs. rewrite Hbs. reflexivity.
Qed.

Lemma mapM_Raise {A B} (f : A -> res B) l a e :
  In a l -> f a = Raise e -> exists e', mapM f l = Raise e'.
Proof.
  induction l as [|x l IH]; simpl; [contradiction|].
  intros [->|Hin] Ha.
  - rewrite Ha. simpl. eauto.
  - destruct (f x); simpl; [|eauto].
    destruct (IH Hin Ha) as [e' ->]. simpl. eauto.
Qed.

(** ** Dictionaries *)

Section DictFacts.
Context {V : Type}.
Implicit Types (d ps : dict V) (k : string) (v : V).

Lemma dict_get_None d k : dict_get d k = None <-> ~ In k (keys d).
Proof.
  induction d as [|[k' v'] d IH]; simpl; [tauto|].
  destruct (String.eqb_spec k' k) as [->|Hne].
  - split; [discriminate | intros H; exfalso; apply H; now left].
  - rewrite IH. split; intros H; [intros [?|?]; [congruence | tauto] | tauto].
Qed.

Lemma dict_get_In d k v : dict_get d k = Some v -> In k (keys d).
Proof.
  intros H. destruct (in_dec string_dec k (keys d)) as [Hin|Hin]; [assumption|].
  apply dict_get_None in Hin. congruence.
Qed.

Lemma dict_set_fresh d k v : ~ In k (keys d) -> dict_set d k v = d ++ [(k, v)].
Proof.
  induction d as [|[k' v'] d IH]; simpl; intros H; [reflexivity|].
  destruct (String.eqb_spec k' k) as [->|Hne]; [tauto|].
  rewrite IH by tauto. reflexivity.
Qed.

Lemma keys_dict_set d k v k' :
  In k' (keys (dict_set d k v)) <-> k' = k \/ In k' (keys d).
Proof.
  induction d as [|[k0 v0] d IH]; simpl; [intuition congruence|].
  destruct (String.eqb_spec k0 k) as [->|Hne]; simpl.
  - intuition congruence.
  - rewrite IH. intuition congruence.
Qed.

Lemma NoDup_dict_set d k v : NoDup (keys d) -> NoDup (keys (dict_set d k v)).
Proof.
  induction d as [|[k0 v0] d IH]; simpl; intros H.
  - constructor; [intros [] | constructor].
  - inversion H as [|? ? Hnin Hnd]; subst.
    destruct (String.eqb_spec k0 k) as [->|Hne]; simpl.
    + now constructor.
    + constructor; [|now apply IH].
      rewrite keys_dict_set. intros [?|?]; [congruence | contradiction].
Qed.

Lemma dict_update_fresh ps : forall d,
  NoDup (keys ps) -> (forall k, In k (keys ps) -> ~ In k (keys d)) ->
  dict_update d ps = d ++ ps.
Proof.
  unfold dict_update.
  induction ps as [|[k v] ps IH]; intros d Hnd Hfresh; simpl.
  - now rewrite app_nil_r.
  - inversion Hnd as [|? ? Hnin Hnd']; subst.
    rewrite dict_set_fresh by (apply Hfresh; now left).
    rewrite IH; [now rewrite <- app_assoc | assumption |].
    intros k' Hk'. unfold keys. rewrite map_app, in_app_iff. simpl.
    intros [H|[H|[]]]; [apply (Hfresh k'); [now right | assumption] | congruence].
Qed.

Lemma dict_of_pairs_NoDup ps : NoDup (keys ps) -> dict_of_pairs ps = ps.
Proof.
  intros H. unfold dict_of_pairs. rewrite dict_update_fresh; auto.
Qed.

Lemma keys_dict_update ps : forall d k,
  In k (keys (dict_update d ps)) <-> In k (keys d) \/ In k (keys ps).
Proof.
  unfold dict_update.
  induction ps as [|[k0 v0] ps IH]; intros d k; simpl; [tauto|].
  rewrite IH, keys_dict_set. intuition congruence.
Qed.

Lemma NoDup_dict_update ps : forall d,
  NoDup (keys d) -> NoDup (keys (dict_update d ps)).
Proof.
  unfold dict_update.
  induction ps as [|[k0 v0] ps IH]; intros d H; simpl; [assumption|].
  apply IH. now apply NoDup_dict_set.
Qed.

Lemma NoDup_dict_of_pairs ps : NoDup (keys (dict_of_pairs ps)).
Proof. apply NoDup_dict_update. constructor. Qed.

Lemma keys_dict_of_pairs ps k :
  In k (keys (dict_of_pairs ps)) <-> In k (keys ps).
Proof. unfold dict_of_pairs. rewrite keys_dict_update. simpl. tauto. Qed.

Lemma dict_pop_None d k : dict_pop d k = None <-> ~ In k (keys d).
Proof.
  induction d as [|[k' v'] d IH]; simpl; [tauto|].
  destruct (String.eqb_spec k' k) as [->|Hne].
  - split; [discriminate | intros H; exfalso; apply H; now left].
  - destruct (dict_pop d k) as [[x r]|].
    + split; [discriminate|]. intros H. exfalso. apply H. right.
      destruct (in_dec string_dec k (keys d)) as [Hin|Hin]; [assumption|].
      apply IH in Hin. discriminate.
    + split; [|reflexivity]. intros _ [?|Hin]; [congruence|].
      now apply (proj1 IH).
Qed.

Lemma without_fresh d k : ~ In k (keys d) -> without k d = d.
Proof.
  induction d as [|[k' v'] d IH]; simpl; intros H; [reflexivity|].
  destruct (String.eqb_spec k' k) as [->|Hne]; [tauto|].
  simpl. rewrite IH by tauto. reflexivity.
Qed.

Lemma dict_pop_Some d k :
  NoDup (keys d) -> In k (keys d) ->
  exists v, dict_get d k = Some v /\ dict_pop d k = Some (v, without k d).
Proof.
  induction d as [|[k' v'] d IH]; simpl; intros Hnd Hin; [contradiction|].
  inversion Hnd as [|? ? Hnin Hnd']; subst.
  destruct (String.eqb_spec k' k) as [->|Hne]; simpl.
  - exists v'. split; [reflexivity|]. now rewrite without_fresh.
  - destruct Hin as [?|Hin]; [congruence|].
    destruct (IH Hnd' Hin) as (v & Hg & Hp). exists v. rewrite Hp. auto.
Qed.

Lemma keys_without d k k' :
  In k' (keys (without k d)) <-> k' <> k /\ In k' (keys d).
Proof.
  induction d as [|[k0 v0] d IH]; simpl; [tauto|].
  destruct (String.eqb_spec k0 k) as [->|Hne]; simpl.
  - rewrite IH. intuition congruence.
  - rewrite IH. intuition congruence.
Qed.

Lemma NoDup_without d k : NoDup (keys d) -> NoDup (keys (without k d)).
Proof.
  induction d as [|[k0 v0] d IH]; simpl; intros H; [constructor|].
  inversion H as [|? ? Hnin Hnd]; subst.
  destruct (String.eqb k0 k); simpl; [now apply IH|].
  constructor; [|now apply IH]. rewrite keys_without. tauto.
Qed.

Lemma dict_get_without d k k' :
  k' <> k -> dict_get (without k d) k' = dict_get d k'.
Proof.
  intros Hne. induction d as [|[k0 v0] d IH]; simpl; [reflexivity|].
  destruct (String.eqb_spec k0 k) as [->|Hne0]; simpl.
  - destruct (String.eqb_spec k k'); [congruence | assumption].
  - now rewrite IH.
Qed.
End DictFacts.

(** ** Relations between lists *)

Lemma Forall2_compose {A B C} (R : A -> B -> Prop) (S : B -> C -> Prop) l1 l2 l3 :
  Forall2 R l1 l2 -> Forall2 S l2 l3 ->
  Forall2 (fun a c => exists b, R a b /\ S b c) l1 l3.
Proof.
  intros H; revert l3; induction H; intros l3 H3; inversion H3; subst;
    constructor; eauto.
Qed.

Lemma Forall2_split {A B C} (R : A -> B -> Prop) (S : B -> C -> Prop) l1 l3 :
  Forall2 (fun a c => exists b, R a b /\ S b c) l1 l3 ->
  exists l2, Forall2 R l1 l2 /\ Forall2 S l2 l3.
Proof.
  induction 1 as [|a c l1 l3 (b & HR & HS) _ (l2 & H1 & H2)].
  - exists []. split; constructor.
  - exists (b :: l2). split; constructor; assumption.
Qed.

Lemma Forall2_impl_In {A B} (R R' : A -> B -> Prop) l l' :
  Forall2 R l l' -> (forall a b, In a l -> R a b -> R' a b) -> Forall2 R' l l'.
Proof.
  induction 1 as [|a b l l' Hab _ IH]; intros H; constructor.
  - apply H; [now left | assumption].
  - apply IH. intros; apply H; [now right | assumption].
Qed.

Lemma mapM_map {A B C} (g : A -> B) (f : B -> res C) l :
  mapM f (map g l) = mapM (fun a => f (g a)) l.
Proof.
  induction l as [|a l IH]; simpl; [reflexivity|]. now rewrite IH.
Qed.

(** ** The encoder *)

Lemma dumps_mono n : forall v j m, dumps n v = Ok j -> n <= m -> dumps m v = Ok j.
Proof.
  induction n as [|n IH]; intros v j m H Hm; [discriminate|].
  destruct m as [|m]; [lia|].
  assert (Hle : n <= m) by lia.
  assert (Hlist : forall l js, mapM (dumps n) l = Ok js -> mapM (dumps m) l = Ok js).
  { intros l js Hl. apply mapM_Forall2. apply mapM_Forall2 in Hl.
    eapply Forall2_impl; [|exact Hl]. intros a b Hab. now apply IH with (m := m) in Hab. }
  assert (Hdef : forall o, (o' <- default o ;; dumps n o') = Ok j ->
                           (o' <- default o ;; dumps m o') = Ok j).
  { intros o Ho. apply bind_Ok in Ho as (o' & -> & Ho'). simpl. now apply IH. }
  destruct v; try exact (Hdef _ H); simpl in *; try assumption.
  - apply bind_Ok in H as (js & Hjs & H). now rewrite (Hlist _ _ Hjs).
  - apply bind_Ok in H as (js & Hjs & H). now rewrite (Hlist _ _ Hjs).
  - apply bind_Ok in H as (ms & Hms & H).
    assert (Hms' : mapM (fun kv => j <- dumps m (snd kv) ;; Ok (fst kv, j)) d = Ok ms).
    { apply mapM_Forall2. apply mapM_Forall2 in Hms.
      eapply Forall2_impl; [|exact Hms]. intros a b Hab. simpl in Hab.
      apply bind_Ok in Hab as (x & Hx & Hab). now rewrite (IH _ _ m Hx Hle). }
    now rewrite Hms'.
  - apply bind_Ok in H as (ms & Hms & H).
    assert (Hms' : mapM (fun kv => k <- json_key (fst kv) ;;
                                   j <- dumps m (snd kv) ;; Ok (k, j)) items = Ok ms).
    { apply mapM_Forall2. apply mapM_Forall2 in Hms.
      eapply Forall2_impl; [|exact Hms]. intros a b Hab. simpl in Hab.
      apply bind_Ok in Hab as (k & -> & Hab). simpl.
      apply bind_Ok in Hab as (x & Hx & Hab). now rewrite (IH _ _ m Hx Hle). }
    now rewrite Hms'.
Qed.

Lemma encodes_of_dumps n v j : dumps n v = Ok j -> encodes v j.
Proof. intros H. exists n. intros m Hm. now apply dumps_mono with (n := n). Qed.

Lemma encodes_fun v j1 j2 : encodes v j1 -> encodes v j2 -> j1 = j2.
Proof.
  intros [n1 H1] [n2 H2].
  specialize (H1 (Nat.max n1 n2) (Nat.le_max_l _ _)).
  specialize (H2 (Nat.max n1 n2) (Nat.le_max_r _ _)).
  congruence.
Qed.

Lemma Forall2_encodes_dumps {A B} (f : A -> pyval) (g : B -> json) l l' :
  Forall2 (fun a b => encodes (f a) (g b)) l l' ->
  exists n, forall m, n <= m -> Forall2 (fun a b => dumps m (f a) = Ok (g b)) l l'.
Proof.
  induction 1 as [|a b l l' [n0 H0] _ [n IH]].
  - exists 0. constructor.
  - exists (Nat.max n0 n). intros m Hm. constructor; [apply H0 | apply IH]; lia.
Qed.

Lemma encodes_list l j :
  encodes (PyList l) j <-> exists js, j = JArr js /\ Forall2 encodes l js.
Proof.
  split.
  - intros [n H]. specialize (H (S n) (Nat.le_succ_diag_r n)). simpl in H.
    apply bind_Ok in H as (js & Hjs & H). injection H as <-.
    exists js. split; [reflexivity|]. apply mapM_Forall2 in Hjs.
    eapply Forall2_impl; [|exact Hjs]. intros a b. apply encodes_of_dumps.
  - intros (js & -> & H).
    apply (Forall2_encodes_dumps (fun v => v) (fun j => j)) in H as [n H].
    apply encodes_of_dumps with (n := S n). simpl.
    rewrite (proj2 (mapM_Forall2 _ _ _) (H n (le_n n))). reflexivity.
Qed.

Lemma encodes_dict d j :
  encodes (PyDict d) j <->
  exists ms, j = JObj ms
             /\ Forall2 (fun kv m => fst m = fst kv /\ encodes (snd kv) (snd m)) d ms.
Proof.
  split.
  - intros [n H]. specialize (H (S n) (Nat.le_succ_diag_r n)). simpl in H.
    apply bind_Ok in H as (ms & Hms & H). injection H as <-.
    exists ms. split; [reflexivity|]. apply mapM_Forall2 in Hms.
    eapply Forall2_impl; [|exact Hms]. intros a b Hab. simpl in Hab.
    apply bind_Ok in Hab as (x & Hx & Hab). injection Hab as <-. simpl.
    split; [reflexivity | now apply encodes_of_dumps with (n := n)].
  - intros (ms & -> & H).
    assert (H' : Forall2 (fun kv m => encodes (snd kv) (snd m)) d ms)
      by (eapply Forall2_impl; [|exact H]; now intros a b [_ ?]).
    apply (Forall2_encodes_dumps snd snd) in H' as [n H'].
    apply encodes_of_dumps with (n := S n). simpl.
    assert (Hms : mapM (fun kv => j <- dumps n (snd kv) ;; Ok (fst kv, j)) d = Ok ms).
    { apply mapM_Forall2. specialize (H' n (le_n n)). clear - H H'.
      induction H as [|kv m d ms [Hk _] _ IH]; inversion H'; subst; constructor; auto.
      destruct m as [k j]; simpl in *. rewrite H2. simpl. now subst. }
    rewrite Hms. reflexivity.
Qed.

(** A value the [json] module does not write itself is encoded as what
    [default] turns it into. *)
Lemma encodes_default v j :
  (forall n, dumps (S n) v = (o' <- default v ;; dumps n o')) ->
  encodes v j <-> exists v', default v = Ok v' /\ encodes v' j.
Proof.
  intros Heq. split.
  - intros [n H]. specialize (H (S n) (Nat.le_succ_diag_r n)). rewrite Heq in H.
    apply bind_Ok in H as (v' & Hv' & H). exists v'. split; [assumption|].
    now apply encodes_of_dumps with (n := n).
  - intros (v' & Hv' & [n H]). exists (S n). intros m Hm.
    destruct m as [|m]; [lia|]. rewrite Heq, Hv'. simpl. apply H. lia.
Qed.

Lemma encodes_atom v j :
  match v with PyNone | PyBool _ | PyInt _ | PyStr _ => True | _ => False end ->
  encodes v j <->
  j = match v with
      | PyNone => JNull | PyBool b => JBool b | PyInt z => JNum z | PyStr s => JStr s
      | _ => j
      end.
Proof.
  intros Hv. split.
  - intros [n H]. specialize (H (S n) (Nat.le_succ_diag_r n)).
    destruct v; try contradiction; simpl in H; congruence.
  - intros Hj. apply encodes_of_dumps with (n := 1).
    destruct v; try contradiction; simpl; now subst.
Qed.

Lemma getattr_items_keys (c : class) attrs names items :
  mapM (fun name => v <- getattr c attrs name ;; Ok (name, v)) names = Ok items ->
  keys items = names.
Proof.
  intros H. apply mapM_Forall2 in H.
  induction H as [|name it names items Hit _ IH]; [reflexivity|].
  apply bind_Ok in Hit as (v & _ & Hit). injection Hit as <-.
  simpl. now rewrite IH.
Qed.

(** On an instance of a well-formed class, [default] returns the dict that
    starts with the tag and goes on with the participating fields. *)
Lemma default_instance c attrs :
  well_formed c ->
  default (PyInst c attrs) =
    (items <- mapM (fun name => v <- getattr c attrs name ;; Ok (name, v))
                   (participating c) ;;
     Ok (PyDict ((TAG, PyStr (cname c)) :: items))).
Proof.
  intros (Hdc & Hnd & Htag). unfold default. rewrite Hdc.
  unfold init_fields, fields, participating, is_dataclass in *.
  destruct (cfields c) as [fs|]; [|discriminate]. simpl.
  rewrite mapM_map.
  destruct (mapM _ (filter finit fs)) as [items|e] eqn:E; simpl; [|reflexivity].
  rewrite <- mapM_map with (g := fname)
    (f := fun name => v <- getattr c attrs name ;; Ok (name, v)) in E.
  apply getattr_items_keys in E.
  rewrite dict_update_fresh; [reflexivity | now rewrite E |].
  rewrite E. intros k Hk [<-|[]]. contradiction.
Qed.

(** But for [__class__], the attributes of an instance are those it holds. *)
Lemma getattr_Ok (c : class) attrs name v :
  name <> TAG ->
  getattr c attrs name = Ok v <-> dict_get attrs name = Some v.
Proof.
  intros Hne. unfold getattr. apply String.eqb_neq in Hne. unfold TAG in Hne.
  rewrite Hne. destruct (dict_get attrs name); split; congruence.
Qed.

(** Shape of the encoding of an instance of a well-formed class. *)
Lemma encodes_instance (c : class) (attrs : dict pyval) (j : json) :
  well_formed c ->
  encodes (PyInst c attrs) j <->
  exists entries,
    j = JObj ((TAG, JStr (cname c)) :: entries)
    /\ Forall2 (fun name e =>
                  fst e = name
                  /\ exists v, dict_get attrs name = Some v /\ encodes v (snd e))
               (participating c) entries.
Proof.
  intros Hwf. rewrite encodes_default by reflexivity.
  rewrite default_instance by assumption.
  assert (Hne : forall name, In name (participating c) -> name <> TAG).
  { intros name Hin ->. now apply Hwf. }
  split.
  - intros (v' & Hv' & Henc).
    apply bind_Ok in Hv' as (items & Hitems & Hv'). injection Hv' as <-.
    apply encodes_dict in Henc as (ms & -> & Hms).
    inversion Hms as [|kv m d ms' [Hk Hv] Hrest]; subst.
    destruct m as [k0 j0]; simpl in *; subst k0.
    apply (encodes_atom (PyStr _)) in Hv; [subst j0 | exact I].
    exists ms'. split; [reflexivity|].
    apply mapM_Forall2 in Hitems.
    eapply Forall2_impl_In; [exact (Forall2_compose _ _ _ _ _ Hitems Hrest)|].
    intros name e Hin (it & Hit & He & Henc). simpl in *.
    apply bind_Ok in Hit as (v & Hv & Hit). injection Hit as <-. simpl in *.
    split; [assumption|]. exists v.
    split; [now apply getattr_Ok in Hv; auto | assumption].
  - intros (entries & -> & H).
    assert (H' : Forall2 (fun name e =>
                   exists it : string * pyval,
                     (v <- getattr c attrs name ;; Ok (name, v)) = Ok it
                     /\ (fst e = fst it /\ encodes (snd it) (snd e)))
                   (participating c) entries).
    { eapply Forall2_impl_In; [exact H|]. intros name e Hin (He & v & Hv & Henc).
      exists (name, v). apply (getattr_Ok c attrs) in Hv; [|auto].
      rewrite Hv. simpl. auto. }
    apply Forall2_split in H' as (items & Hitems & Hrest).
    apply mapM_Forall2 in Hitems. rewrite Hitems. simpl.
    eexists. split; [reflexivity|]. apply encodes_dict.
    eexists. split; [reflexivity|]. constructor; [|assumption].
    simpl. split; [reflexivity|]. now apply (encodes_atom (PyStr _)).
Qed.

(** C2: a record instance of a well-formed type encodes to a JSON object
    whose first member is the tag with the type's name, followed by one
    member per participating field, in declaration order, holding the encoded
    field value; the keys written depend on the type only. *)
Theorem encoder_emits_tagged_object (c : class) (attrs : dict pyval) :
  well_formed c ->
  (forall j,
      encodes (PyInst c attrs) j <->
      exists entries,
        j = JObj ((TAG, JStr (cname c)) :: entries)
        /\ Forall2 (fun name e =>
                      fst e = name
                      /\ exists v, dict_get attrs name = Some v /\ encodes v (snd e))
                   (participating c) entries)
  /\ (forall attrs' j j',
         encodes (PyInst c attrs) j -> encodes (PyInst c attrs') j' ->
         json_keys j = TAG :: participating c /\ json_keys j' = json_keys j).
Proof.
  intros Hwf. split; [intros j; now apply encodes_instance|].
  assert (Hkeys : forall a j, encodes (PyInst c a) j -> json_keys j = TAG :: participating c).
  { intros a j Hj. apply encodes_instance in Hj as (entries & -> & H); [|assumption].
    simpl. f_equal.
    clear - H. induction H as [|name e names entries [He _] _ IH]; simpl; congruence. }
  intros attrs' j j' Hj Hj'. rewrite (Hkeys _ _ Hj), (Hkeys _ _ Hj'). auto.
Qed.

(** C10: whatever its kind, an iterable that is no mapping and that the
    [json] module does not write itself is encoded as the JSON array of its
    encoded elements, and an array never decodes to anything but a list. *)
Theorem iterable_encoded_as_array (k : iterable_kind) (l : list pyval) :
  (forall j, encodes (PyIterable k l) j <->
             exists js, j = JArr js /\ Forall2 encodes l js)
  /\ (forall j, encodes (PyIterable k l) j <-> encodes (PyList l) j)
  /\ (forall j reg h v,
         encodes (PyIterable k l) j -> parse construct reg h j = Ok v ->
         (exists l', v = PyList l') /\ v <> PyIterable k l).
Proof.
  assert (Hlist : forall j, encodes (PyIterable k l) j <-> encodes (PyList l) j).
  { intros j. rewrite encodes_default by reflexivity. simpl. split.
    - intros (v' & Hv' & H). now injection Hv' as <-.
    - intros H. eauto. }
  split; [|split].
  - intros j. rewrite Hlist. apply encodes_list.
  - exact Hlist.
  - intros j reg h v Hj Hv. apply Hlist, encodes_list in Hj as (js & -> & _).
    simpl in Hv. apply bind_Ok in Hv as (vs & _ & Hv). injection Hv as <-.
    split; [eauto | discriminate].
Qed.

(** ** The decoder *)

Lemma without_dict_set {V} (d : dict V) k k' (v : V) :
  without k (dict_set d k' v) =
  if String.eqb k' k then without k d else dict_set (without k d) k' v.
Proof.
  induction d as [|[k0 v0] d IH]; simpl.
  - destruct (String.eqb k' k); reflexivity.
  - destruct (String.eqb_spec k0 k') as [->|Hne]; simpl.
    + destruct (String.eqb_spec k' k) as [->|Hne']; simpl.
      * reflexivity.
      * now rewrite String.eqb_refl.
    + rewrite IH.
      destruct (String.eqb_spec k0 k) as [->|Hne0]; simpl.
      * reflexivity.
      * destruct (String.eqb_spec k' k) as [->|Hne']; simpl; [reflexivity|].
        destruct (String.eqb_spec k0 k'); [congruence | reflexivity].
Qed.

Lemma without_dict_update {V} (ps : dict V) k : forall d,
  without k (dict_update d ps) = dict_update (without k d) (without k ps).
Proof.
  unfold dict_update.
  induction ps as [|[k' v'] ps IH]; intros d; simpl; [reflexivity|].
  rewrite IH, without_dict_set.
  destruct (String.eqb k' k); reflexivity.
Qed.

Lemma without_dict_of_pairs {V} (ps : dict V) k :
  dict_of_pairs (without k ps) = without k (dict_of_pairs ps).
Proof. unfold dict_of_pairs. now rewrite without_dict_update. Qed.

Lemma parse_members_keys reg h ms pairs :
  parse_members construct reg h ms = Ok pairs -> keys pairs = keys ms.
Proof.
  intros H. apply mapM_Forall2 in H.
  induction H as [|m p ms pairs Hp _ IH]; [reflexivity|].
  apply bind_Ok in Hp as (v & _ & Hp). injection Hp as <-. simpl. now rewrite IH.
Qed.

Lemma parse_members_without reg h ms pairs k :
  parse_members construct reg h ms = Ok pairs ->
  parse_members construct reg h (without k ms) = Ok (without k pairs).
Proof.
  unfold parse_members. intros H. apply mapM_Forall2. apply mapM_Forall2 in H.
  induction H as [|m p ms pairs Hp _ IH]; simpl; [constructor|].
  assert (Hk : fst p = fst m).
  { apply bind_Ok in Hp as (v & _ & Hp). now injection Hp as <-. }
  rewrite Hk. destruct (String.eqb (fst m) k); simpl; [assumption|].
  now constructor.
Qed.

Lemma parse_object reg h ms pairs :
  parse_members construct reg h ms = Ok pairs ->
  parse construct reg h (JObj ms) = object_hook construct reg h (dict_of_pairs pairs).
Proof. unfold parse_members. intros H. simpl. now rewrite H. Qed.

Lemma object_hook_passes reg h obj :
  passes h obj -> object_hook construct reg h obj = resolve construct reg obj.
Proof.
  unfold passes, object_hook. destruct h as [hk|]; [|reflexivity].
  now intros ->.
Qed.

(** A failure anywhere in the document makes the whole call fail. *)
Lemma parse_abort reg h j0 j e :
  occurs_in j0 j -> parse construct reg h j0 = Raise e -> exists e', parse construct reg h j = Raise e'.
Proof.
  intros Hocc He. induction Hocc as [|l j Hin _ [e' IH]|ms k j Hin _ [e' IH]].
  - eauto.
  - simpl. destruct (mapM_Raise (parse construct reg h) l j e' Hin IH) as [e'' ->].
    simpl. eauto.
  - simpl.
    destruct (mapM_Raise (fun kv => v <- parse construct reg h (snd kv) ;; Ok (fst kv, v))
                         ms (k, j) e' Hin) as [e'' ->].
    + simpl. now rewrite IH.
    + simpl. eauto.
Qed.

Lemma filter_without_names {V} (d : dict V) k names :
  filter (fun kv => negb (existsb (String.eqb (fst kv)) names)) (without k d)
  = filter (fun kv => negb (existsb (String.eqb (fst kv)) (k :: names))) d.
Proof.
  induction d as [|[k0 v0] d IH]; simpl; [reflexivity|].
  destruct (String.eqb k0 k); simpl; [assumption|].
  destruct (existsb (String.eqb k0) names); simpl; [assumption|].
  now rewrite IH.
Qed.

(** The loop stops at the first participating field, in declaration order,
    that the object lacks. *)
Lemma pop_fields_first_missing cn pre : forall flds name post obj kwargs,
  map fname flds = pre ++ name :: post ->
  NoDup pre -> NoDup (keys obj) ->
  (forall n, In n pre -> In n (keys obj)) -> ~ In name (keys obj) ->
  pop_fields cn flds obj kwargs = Raise (MissingFieldError name cn).
Proof.
  induction pre as [|a pre IH]; intros flds name post obj kwargs Hmap Hnd Hobj Hpre Hname;
    destruct flds as [|f flds]; try discriminate; simpl in Hmap;
    injection Hmap as Hf Hmap; simpl.
  - apply dict_pop_None in Hname. subst name. now rewrite Hname.
  - subst a. inversion Hnd as [|? ? Hnin Hnd']; subst.
    destruct (dict_pop_Some obj (fname f) Hobj (Hpre _ (or_introl eq_refl)))
      as (v & _ & ->).
    apply IH with (post := post); auto.
    + now apply NoDup_without.
    + intros n Hn. apply keys_without. split; [congruence|]. apply Hpre. now right.
    + rewrite keys_without. tauto.
Qed.

(** When the object has every field, the loop moves them to [kwargs] and
    leaves the other entries, in their order. *)
Lemma pop_fields_all cn : forall flds obj kwargs,
  NoDup (map fname flds) -> NoDup (keys obj) ->
  (forall n, In n (map fname flds) -> In n (keys obj)) ->
  exists kwargs',
    pop_fields cn flds obj kwargs
    = Ok (kwargs',
          filter (fun kv => negb (existsb (String.eqb (fst kv)) (map fname flds))) obj).
Proof.
  induction flds as [|f flds IH]; intros obj kwargs Hnd Hobj Hall; simpl.
  - exists kwargs. f_equal. f_equal. clear. induction obj; simpl; congruence.
  - inversion Hnd as [|? ? Hnin Hnd']; subst.
    destruct (dict_pop_Some obj (fname f) Hobj (Hall _ (or_introl eq_refl)))
      as (v & _ & ->).
    destruct (IH (without (fname f) obj) (dict_set kwargs (fname f) v)) as [kw Hkw];
      auto.
    + now apply NoDup_without.
    + intros n Hn. apply keys_without. split; [congruence|]. apply Hall. now right.
    + exists kw. rewrite Hkw. now rewrite filter_without_names.
Qed.

Lemma dict_pop_keys {V} (d : dict V) k v r :
  dict_pop d k = Some (v, r) ->
  In k (keys d) /\ (forall k', In k' (keys r) -> In k' (keys d))
  /\ (forall k', In k' (keys d) -> k' = k \/ In k' (keys r)).
Proof.
  revert r. induction d as [|[k0 v0] d IH]; simpl; intros r H; [discriminate|].
  destruct (String.eqb_spec k0 k) as [->|Hne].
  - injection H as <- <-. intuition.
  - destruct (dict_pop d k) as [[x r']|]; [|discriminate].
    injection H as <- <-. destruct (IH r' eq_refl) as (H1 & H2 & H3).
    simpl. split; [auto|]. split.
    + intros k' [?|?]; auto.
    + intros k' [?|?]; [auto|]. destruct (H3 k'); auto.
Qed.

(** If the loop succeeds, the object had every field and what is left are
    its other keys. *)
Lemma pop_fields_Ok cn : forall flds obj kwargs kwargs' rest,
  pop_fields cn flds obj kwargs = Ok (kwargs', rest) ->
  (forall n, In n (map fname flds) -> In n (keys obj))
  /\ (forall k, In k (keys obj) -> In k (map fname flds) \/ In k (keys rest)).
Proof.
  induction flds as [|f flds IH]; intros obj kwargs kwargs' rest H; simpl in *.
  - injection H as _ <-. split; [contradiction | auto].
  - destruct (dict_pop obj (fname f)) as [[v obj']|] eqn:E; [|discriminate].
    apply dict_pop_keys in E as (H1 & H2 & H3).
    apply IH in H as (H4 & H5). split.
    + intros n [<-|Hn]; auto.
    + intros k Hk. destruct (H3 k Hk) as [->|Hk']; [auto|].
      destruct (H5 k Hk'); auto.
Qed.

Lemma dict_pop_tag (obj : dict pyval) tag :
  NoDup (keys obj) -> dict_get obj TAG = Some tag ->
  dict_pop obj TAG = Some (tag, without TAG obj).
Proof.
  intros Hnd Hget.
  destruct (dict_pop_Some obj TAG Hnd (dict_get_In _ _ _ Hget)) as (v & Hv & ->).
  congruence.
Qed.

(** The resolution step on an object tagged with a registered dataclass. *)
Lemma resolve_registered reg obj classname cls fs :
  NoDup (keys obj) -> dict_get obj TAG = Some (PyStr classname) ->
  dict_get reg classname = Some cls -> cfields cls = Some fs ->
  resolve construct reg obj =
    ('(kwargs, rest) <- pop_fields classname (filter finit fs) (without TAG obj) [] ;;
     match rest with
     | _ :: _ => Raise (ExtraneousFieldError classname (keys rest))
     | [] =>
         match construct cls kwargs with
         | Ok attrs => Ok (PyInst cls attrs)
         | Raise e =>
             Raise (PyExc ValueError_
                      ("Instantiation of dataclass " ++ cname cls
                         ++ " failed. (Does it specify InitVars?)")%string
                      (Some e))
         end
     end).
Proof.
  intros Hnd Htag Hreg Hfs. unfold resolve.
  rewrite (dict_pop_tag _ _ Hnd Htag). cbv beta iota. rewrite Hreg.
  unfold init_fields, fields. rewrite Hfs. reflexivity.
Qed.

Lemma well_formed_fields cls :
  well_formed cls ->
  exists fs, cfields cls = Some fs /\ participating cls = map fname (filter finit fs).
Proof.
  intros (Hdc & _). unfold is_dataclass, participating in *.
  destruct (cfields cls) as [fs|]; [eauto | discriminate].
Qed.

(** C4: take a JSON object tagged with a registered, well-formed type that
    has the participating fields declared before [name] (a valid object has
    them all) and remove its member [name], a participating field: decoding
    fails with the missing-field error that names [name], whatever other
    members, expected or not, the object has. *)
Theorem missing_field_error reg h ms pairs classname cls pre name post :
  parse_members construct reg h ms = Ok pairs ->
  dict_get (dict_of_pairs pairs) TAG = Some (PyStr classname) ->
  dict_get reg classname = Some cls ->
  well_formed cls ->
  participating cls = pre ++ name :: post ->
  (forall n, In n pre -> In n (keys ms)) ->
  passes h (dict_of_pairs (without name pairs)) ->
  parse construct reg h (JObj (without name ms)) = Raise (MissingFieldError name classname).
Proof.
  intros Hms Htag Hreg Hwf Hpart Hpre Hpass.
  rewrite (parse_object _ _ _ _ (parse_members_without _ _ _ _ name Hms)).
  rewrite object_hook_passes by assumption.
  destruct (well_formed_fields _ Hwf) as (fs & Hfs & Hnames).
  destruct Hwf as (_ & Hnd & Hnotag). rewrite Hpart in Hnd, Hnotag.
  assert (Hname : name <> TAG).
  { intros ->. apply Hnotag. rewrite in_app_iff. right. now left. }
  apply NoDup_remove in Hnd as (Hnd & Hnin).
  apply NoDup_app_remove_r in Hnd.
  rewrite without_dict_of_pairs.
  rewrite (resolve_registered reg _ classname cls fs); try assumption.
  - erewrite pop_fields_first_missing with (pre := pre) (name := name) (post := post);
      [reflexivity | congruence | assumption | | | ].
    + apply NoDup_without, NoDup_without, NoDup_dict_of_pairs.
    + intros n Hn. rewrite !keys_without, keys_dict_of_pairs.
      rewrite (parse_members_keys _ _ _ _ Hms). repeat split.
      * intros ->. apply Hnotag. rewrite in_app_iff. now left.
      * intros ->. apply Hnin. rewrite in_app_iff. now left.
      * now apply Hpre.
    + rewrite !keys_without. tauto.
  - apply NoDup_without, NoDup_dict_of_pairs.
  - rewrite dict_get_without by congruence. assumption.
Qed.

Lemma keys_leftover names (obj : dict pyval) k :
  In k (keys (leftover names obj)) <-> In k (keys obj) /\ k <> TAG /\ ~ In k names.
Proof.
  unfold leftover, keys. rewrite in_map_iff. split.
  - intros ([k' v] & <- & Hin). apply filter_In in Hin as (Hin & Hb). simpl in *.
    split; [apply in_map_iff; now exists (k', v)|].
    apply negb_true_iff, orb_false_iff in Hb as (Hb1 & Hb2).
    split; [now apply String.eqb_neq|].
    intros Hk. assert (existsb (String.eqb k') names = true); [|congruence].
    apply existsb_exists. exists k'. split; [assumption | apply String.eqb_refl].
  - intros (Hin & Hk & Hnames). apply in_map_iff in Hin as ([k' v] & <- & Hin).
    exists (k', v). split; [reflexivity|]. apply filter_In. split; [assumption|].
    simpl in *. apply negb_true_iff, orb_false_iff. split; [now apply String.eqb_neq|].
    destruct (existsb (String.eqb k') names) eqn:E; [|reflexivity].
    apply existsb_exists in E as (x & Hx & Hx'). apply String.eqb_eq in Hx'.
    subst x. contradiction.
Qed.

(** C5: on a JSON object tagged with a registered, well-formed type that has
    every participating field, keys other than the tag and the fields make
    decoding fail with the extraneous-field error, whose message lists all of
    them; and decoding succeeds only if the keys of the object are the tag
    and the participating field names, no more, no less. *)
Theorem extraneous_field_error reg h ms pairs classname cls :
  parse_members construct reg h ms = Ok pairs ->
  passes h (dict_of_pairs pairs) ->
  dict_get (dict_of_pairs pairs) TAG = Some (PyStr classname) ->
  dict_get reg classname = Some cls ->
  well_formed cls ->
  ((forall n, In n (participating cls) -> In n (keys ms)) ->
   leftover (participating cls) (dict_of_pairs pairs) <> [] ->
   parse construct reg h (JObj ms)
   = Raise (ExtraneousFieldError
              classname (keys (leftover (participating cls) (dict_of_pairs pairs)))))
  /\ (forall k,
         In k (keys (leftover (participating cls) (dict_of_pairs pairs))) <->
         In k (keys ms) /\ k <> TAG /\ ~ In k (participating cls))
  /\ (forall v,
         parse construct reg h (JObj ms) = Ok v ->
         forall k, In k (keys ms) <-> k = TAG \/ In k (participating cls)).
Proof.
  intros Hms Hpass Htag Hreg Hwf.
  rewrite (parse_object _ _ _ _ Hms), (object_hook_passes _ _ _ Hpass).
  destruct (well_formed_fields _ Hwf) as (fs & Hfs & Hnames).
  destruct Hwf as (_ & Hnd & Hnotag).
  pose proof (NoDup_dict_of_pairs pairs) as Hobj.
  rewrite (resolve_registered reg _ classname cls fs) by assumption.
  pose proof (parse_members_keys _ _ _ _ Hms) as Hkeys.
  set (obj := dict_of_pairs pairs) in *.
  split; [|split].
  - intros Hall Hleft.
    destruct (pop_fields_all classname (filter finit fs) (without TAG obj) [])
      as [kw Hkw].
    + now rewrite <- Hnames.
    + now apply NoDup_without.
    + intros n Hn. rewrite <- Hnames in Hn. apply keys_without. split.
      * intros ->. contradiction.
      * apply keys_dict_of_pairs. rewrite Hkeys. now apply Hall.
    + rewrite Hkw. simpl. rewrite filter_without_names, <- Hnames.
      fold (leftover (participating cls) obj).
      destruct (leftover (participating cls) obj); [contradiction | reflexivity].
  - intros k. rewrite keys_leftover. unfold obj.
    now rewrite keys_dict_of_pairs, Hkeys.
  - intros v Hv k.
    destruct (pop_fields classname (filter finit fs) (without TAG obj) [])
      as [[kw rest]|e] eqn:E; simpl in Hv; [|discriminate].
    destruct rest; [|discriminate].
    apply pop_fields_Ok in E as (Hall & Hrest). rewrite <- Hnames in Hall, Hrest.
    rewrite <- Hkeys, <- (keys_dict_of_pairs pairs k). fold obj. split.
    + intros Hk. destruct (string_dec k TAG) as [->|Hne]; [now left | right].
      destruct (Hrest k); [apply keys_without; now split | assumption | contradiction].
    + intros [->|Hk]; [now apply dict_get_In in Htag|].
      apply Hall in Hk. now apply keys_without in Hk.
Qed.

(** C6, as the code has it: a JSON object whose tag is not a string makes
    decoding fail with a [ValueError] that tells the type found, and the
    failure aborts the decoding of any document the object occurs in. *)
Theorem invalid_tag_error reg h ms pairs tag :
  parse_members construct reg h ms = Ok pairs ->
  passes h (dict_of_pairs pairs) ->
  dict_get (dict_of_pairs pairs) TAG = Some tag ->
  (forall s, tag <> PyStr s) ->
  parse construct reg h (JObj ms) = Raise (InvalidTagError tag)
  /\ exc_class_of (InvalidTagError tag) = ValueError_
  /\ forall doc, occurs_in (JObj ms) doc -> exists e, parse construct reg h doc = Raise e.
Proof.
  intros Hms Hpass Htag Hstr.
  assert (H : parse construct reg h (JObj ms) = Raise (InvalidTagError tag)).
  { rewrite (parse_object _ _ _ _ Hms), (object_hook_passes _ _ _ Hpass).
    unfold resolve. rewrite (dict_pop_tag _ _ (NoDup_dict_of_pairs pairs) Htag).
    destruct tag; try reflexivity. now destruct (Hstr s). }
  split; [assumption|]. split; [reflexivity|].
  intros doc Hdoc. eapply parse_abort; eassumption.
Qed.

(** C7: a JSON object whose tag is a string the registry has no entry for
    makes decoding fail with the unregistered-type error, and the failure
    aborts the decoding of any document the object occurs in. *)
Theorem unregistered_type_error reg h ms pairs classname :
  parse_members construct reg h ms = Ok pairs ->
  passes h (dict_of_pairs pairs) ->
  dict_get (dict_of_pairs pairs) TAG = Some (PyStr classname) ->
  dict_get reg classname = None ->
  parse construct reg h (JObj ms) = Raise (UnregisteredTypeError classname)
  /\ forall doc, occurs_in (JObj ms) doc -> exists e, parse construct reg h doc = Raise e.
Proof.
  intros Hms Hpass Htag Hreg.
  assert (H : parse construct reg h (JObj ms) = Raise (UnregisteredTypeError classname)).
  { rewrite (parse_object _ _ _ _ Hms), (object_hook_passes _ _ _ Hpass).
    unfold resolve. rewrite (dict_pop_tag _ _ (NoDup_dict_of_pairs pairs) Htag).
    cbv beta iota. now rewrite Hreg. }
  split; [assumption|].
  intros doc Hdoc. eapply parse_abort; eassumption.
Qed.

(** A delegate hook that hands back the very dict it was given, changed in
    place or not, does not end the resolution: the test is on identity. *)
Lemma delegate_same_object reg (hk : hook) obj obj' :
  hk obj = HookSame obj' -> object_hook construct reg (Some hk) obj = resolve construct reg obj'.
Proof. intros H. unfold object_hook. now rewrite H. Qed.

(** C8: when the delegate hook answers a parsed object with another object,
    that object is the result for this JSON object: neither the tag nor the
    registry nor the fields are looked at. *)
Theorem delegate_priority reg (hk : hook) ms pairs new_obj :
  parse_members construct reg (Some hk) ms = Ok pairs ->
  hk (dict_of_pairs pairs) = HookOther new_obj ->
  parse construct reg (Some hk) (JObj ms) = Ok new_obj
  /\ forall reg', object_hook construct reg' (Some hk) (dict_of_pairs pairs) = Ok new_obj.
Proof.
  intros Hms Hhk. rewrite (parse_object _ _ _ _ Hms).
  unfold object_hook. rewrite Hhk. auto.
Qed.

(** ** The registry *)

Lemma build_from_app pre : forall result rest,
  build_from result (pre ++ rest) = (reg <- build_from result pre ;; build_from reg rest).
Proof.
  induction pre as [|c pre IH]; intros result rest; simpl; [reflexivity|].
  destruct (dict_mem result (cname c)); [reflexivity|].
  destruct (is_dataclass c); simpl; [apply IH | reflexivity].
Qed.

Lemma dict_mem_true {V} (d : dict V) k : dict_mem d k = true <-> In k (keys d).
Proof.
  unfold dict_mem. destruct (dict_get d k) eqn:E.
  - split; [intros _; eapply dict_get_In; eassumption | reflexivity].
  - apply dict_get_None in E. split; [discriminate | contradiction].
Qed.

Lemma build_from_keys class_list : forall result reg,
  build_from result class_list = Ok reg ->
  forall k, In k (keys reg) <-> In k (keys result) \/ In k (map cname class_list).
Proof.
  induction class_list as [|c l IH]; intros result reg H k; simpl in *.
  - injection H as <-. tauto.
  - destruct (dict_mem result (cname c)); [discriminate|].
    destruct (is_dataclass c); [|discriminate]. simpl in H.
    rewrite (IH _ _ H), keys_dict_set. intuition.
Qed.

(** C9: the registry builder tests a name for duplication before it tests
    the type for being a dataclass: after a prefix that registers, a type that
    is no dataclass fails with the duplicate-name error when its name is
    already registered, and with the not-a-record-type error when it is not. *)
Theorem build_checks_duplicate_first (pre : list class) (c : class) (post : list class) reg :
  _build_serializable_classes_dict pre = Ok reg ->
  is_dataclass c = false ->
  (In (cname c) (map cname pre) ->
   _build_serializable_classes_dict (pre ++ c :: post)
   = Raise (DuplicateNameError (cname c)))
  /\ (~ In (cname c) (map cname pre) ->
      _build_serializable_classes_dict (pre ++ c :: post)
      = Raise (NotARecordTypeError (cname c))).
Proof.
  unfold _build_serializable_classes_dict. intros Hpre Hdc.
  rewrite build_from_app, Hpre. simpl.
  pose proof (build_from_keys _ _ _ Hpre (cname c)) as Hk. simpl in Hk.
  split; intros Hin.
  - assert (Hm : dict_mem reg (cname c) = true) by (apply dict_mem_true; tauto).
    now rewrite Hm.
  - destruct (dict_mem reg (cname c)) eqn:Hm.
    + apply dict_mem_true in Hm. tauto.
    + now rewrite Hdc.
Qed.

(** C3: with [A] registered, a dataclass with the fields [id] and [ref] and
    the generated constructor, the nested document of the test-suite decodes
    to an [A] whose [ref] is an [A] again, rebuilt before the outer one. *)
Theorem nested_resolution reg (A : class) d1 d2 b1 b2 :
  dict_get reg "A" = Some A ->
  cfields A = Some [mkField "id" true d1 b1; mkField "ref" true d2 b2] ->
  cinitvars A = [] ->
  (forall kwargs, construct A kwargs = generated_init None A kwargs) ->
  parse construct reg None nested_A_json = Ok (nested_A_value A).
Proof.
  intros Hreg Hfs Hiv Hgen.
  assert (Hinst : forall v1 v2,
             construct A [("id", v1); ("ref", v2)]
             = Ok [("id", v1); ("ref", v2)]).
  { intros v1 v2. rewrite Hgen.
    unfold generated_init, bind_arguments, init_params, required_params.
    rewrite Hfs, Hiv. destruct d1, d2; reflexivity. }
  assert (Hres : forall v1 v2,
             resolve construct reg [(TAG, PyStr "A"); ("id", v1); ("ref", v2)]
             = Ok (PyInst A [("id", v1); ("ref", v2)])).
  { intros v1 v2.
    rewrite (resolve_registered reg _ "A" A _) with (3 := Hreg) (4 := Hfs);
      [| repeat constructor; simpl; intuition discriminate | reflexivity].
    simpl. now rewrite Hinst. }
  unfold nested_A_json, nested_A_value. simpl.
  change (dict_of_pairs [("__class__", PyStr "A"); ("id", PyStr "2"); ("ref", PyNone)])
    with [(TAG, PyStr "A"); ("id", PyStr "2"); ("ref", PyNone)].
  rewrite Hres. simpl.
  change (dict_of_pairs [("__class__", PyStr "A"); ("id", PyStr "1");
                         ("ref", PyInst A [("id", PyStr "2"); ("ref", PyNone)])])
    with [(TAG, PyStr "A"); ("id", PyStr "1");
          ("ref", PyInst A [("id", PyStr "2"); ("ref", PyNone)])].
  now rewrite Hres.
Qed.

(** ** Round trip *)

Lemma pop_fields_exact cn : forall flds (attrs kwargs : dict pyval),
  keys attrs = map fname flds ->
  pop_fields cn flds attrs kwargs = Ok (dict_update kwargs attrs, []).
Proof.
  induction flds as [|f flds IH]; intros attrs kwargs Hk;
    destruct attrs as [|[k v] attrs]; try discriminate; simpl in *.
  - reflexivity.
  - injection Hk as -> Hk. rewrite String.eqb_refl. now rewrite IH.
Qed.

Lemma dict_get_NoDup {V} (d : dict V) k v :
  NoDup (keys d) -> In (k, v) d -> dict_get d k = Some v.
Proof.
  induction d as [|[k0 v0] d IH]; simpl; intros Hnd Hin; [contradiction|].
  inversion Hnd as [|? ? Hnin Hnd']; subst.
  destruct Hin as [Heq|Hin].
  - injection Heq as -> ->. now rewrite String.eqb_refl.
  - destruct (String.eqb_spec k0 k) as [->|Hne]; [|auto].
    exfalso. apply Hnin. apply in_map_iff. now exists (k, v).
Qed.

Lemma assign_fields_all kwargs : forall fs items,
  keys items = map fname fs ->
  forallb finit fs = true ->
  Forall (fun it => dict_get kwargs (fst it) = Some (snd it)) items ->
  assign_fields fs kwargs = items.
Proof.
  induction fs as [|f fs IH]; intros items Hk Hinit Hget;
    destruct items as [|[k v] items]; try discriminate; simpl in *.
  - reflexivity.
  - injection Hk as -> Hk. apply andb_true_iff in Hinit as (-> & Hinit).
    inversion Hget as [|? ? Hv Hget']; subst. simpl in Hv. rewrite Hv.
    now rewrite (IH items).
Qed.

Lemma filter_nil {A} (p : A -> bool) l :
  (forall x, In x l -> p x = false) -> filter p l = [].
Proof.
  induction l as [|a l IH]; simpl; intros H; [reflexivity|].
  rewrite (H a) by now left. apply IH. intros; apply H; now right.
Qed.

Lemma find_all_false {A} (p : A -> bool) l :
  (forall x, In x l -> p x = false) -> find p l = None.
Proof.
  induction l as [|a l IH]; simpl; intros H; [reflexivity|].
  rewrite (H a) by now left. apply IH. intros; apply H; now right.
Qed.

Lemma filter_all_true {A} (p : A -> bool) l : forallb p l = true -> filter p l = l.
Proof.
  induction l as [|a l IH]; simpl; [reflexivity|].
  intros H. apply andb_true_iff in H as (-> & H). now rewrite IH.
Qed.

(** The generated [__init__] of a plain class, given exactly the fields,
    sets them as they are given. *)
Lemma bind_arguments_plain (c : class) (attrs : dict pyval) :
  well_formed c -> plain_class c -> keys attrs = participating c ->
  bind_arguments c attrs = Ok attrs.
Proof.
  intros (_ & Hnd & _) (Hinit & Hiv) Hk.
  unfold bind_arguments, init_params, required_params, participating in *.
  destruct (cfields c) as [fs|]; [|contradiction].
  rewrite (filter_all_true _ _ Hinit) in *.
  rewrite find_all_false.
  - rewrite filter_nil.
    + rewrite (assign_fields_all attrs fs attrs); auto.
      apply Forall_forall. intros [k v] Hin. apply dict_get_NoDup; [|assumption].
      now rewrite Hk.
    + intros p Hp. apply negb_false_iff, dict_mem_true.
      apply in_app_iff in Hp as [Hp|Hp].
      * rewrite Hk. apply in_map_iff in Hp as (f & <- & Hf).
        apply filter_In in Hf as (Hf & _). now apply in_map.
      * apply in_map_iff in Hp as (iv & <- & Hiv').
        apply filter_In in Hiv' as (Hin & Hb). rewrite forallb_forall in Hiv.
        rewrite (Hiv iv Hin) in Hb. discriminate.
  - intros k Hin. apply negb_false_iff, existsb_exists. exists k.
    split; [|apply String.eqb_refl]. rewrite in_app_iff. left. now rewrite <- Hk.
Qed.

Lemma Forall2_map_In {A B C} (R : A -> B -> Prop) (R' : C -> B -> Prop) (f : A -> C) l l' :
  Forall2 R l l' -> (forall a b, In a l -> R a b -> R' (f a) b) ->
  Forall2 R' (map f l) l'.
Proof.
  induction 1 as [|a b l l' Hab _ IH]; intros H; simpl; constructor.
  - apply H; [now left | assumption].
  - apply IH. intros; apply H; [now right | assumption].
Qed.

Lemma field_items_all (c : class) (attrs : dict pyval) :
  NoDup (keys attrs) -> ~ In TAG (keys attrs) -> keys attrs = participating c ->
  field_items c attrs = Ok attrs.
Proof.
  intros Hnd Htag Hk. unfold field_items. rewrite <- Hk. apply mapM_Forall2.
  apply Forall2_map_In with (R := eq).
  - clear. induction attrs; constructor; auto.
  - intros [k v] b Hin <-. simpl.
    assert (Hne : k <> TAG).
    { intros ->. apply Htag. apply in_map_iff. now exists (TAG, v). }
    now rewrite (proj2 (getattr_Ok c attrs k v Hne) (dict_get_NoDup attrs k v Hnd Hin)).
Qed.

(** Instances of plain classes with the generated constructor and no
    [__post_init__] that hold exactly their fields are rebuilt by the
    constructor. *)
Lemma plain_rebuilt (c : class) (attrs : dict pyval) :
  well_formed c -> plain_class c -> keys attrs = participating c ->
  (forall kwargs, construct c kwargs = generated_init None c kwargs) ->
  rebuilt construct c attrs.
Proof.
  intros Hwf Hplain Hk Hgen. exists attrs. split.
  - apply field_items_all; try assumption; rewrite Hk; apply Hwf.
  - rewrite Hgen. unfold generated_init. now rewrite bind_arguments_plain.
Qed.

Lemma All_In {A} (P : A -> Prop) l : All P l <-> forall x, In x l -> P x.
Proof.
  induction l as [|a l IH]; simpl.
  - split; [intros _ x [] | auto].
  - rewrite IH. split.
    + intros (Ha & H) x [<-|Hx]; auto.
    + intros H. split; [apply H; now left | intros x Hx; apply H; now right].
Qed.

Lemma dict_get_In_pair {V} (d : dict V) k v : dict_get d k = Some v -> In (k, v) d.
Proof.
  induction d as [|[k0 v0] d IH]; simpl; [discriminate|].
  destruct (String.eqb_spec k0 k) as [->|Hne].
  - intros H. injection H as ->. now left.
  - intros H. right. now apply IH.
Qed.

Lemma Forall2_In_r {A B} (R : A -> B -> Prop) l l' b :
  Forall2 R l l' -> In b l' -> exists a, In a l /\ R a b.
Proof.
  induction 1 as [|a0 b0 l l' Hab _ IH]; simpl; [contradiction|].
  intros [<-|Hin]; [eauto|]. destruct (IH Hin) as (a & Ha & HR). eauto.
Qed.

Section RoundTrip.
Variable reg : dict class.

Lemma roundtrip_elements l :
  Forall (fun v => representable construct reg v -> exists j, round_trips construct reg v j) l ->
  All (representable construct reg) l -> exists js, Forall2 (round_trips construct reg) l js.
Proof.
  induction 1 as [|v l Hv _ IH]; simpl; intros Hall.
  - exists []. constructor.
  - destruct Hall as (Hr & Hall). destruct (Hv Hr) as [j Hj].
    destruct (IH Hall) as [js Hjs]. exists (j :: js). now constructor.
Qed.

Lemma roundtrip_members (d : dict pyval) :
  Forall (fun kv => representable construct reg (snd kv) -> exists j, round_trips construct reg (snd kv) j) d ->
  All (fun kv => representable construct reg (snd kv)) d ->
  exists ms, Forall2 (fun kv m => fst m = fst kv /\ round_trips construct reg (snd kv) (snd m)) d ms.
Proof.
  induction 1 as [|kv d Hv _ IH]; simpl; intros Hall.
  - exists []. constructor.
  - destruct Hall as (Hr & Hall). destruct (Hv Hr) as [j Hj].
    destruct (IH Hall) as [ms Hms]. exists ((fst kv, j) :: ms). now constructor.
Qed.

Lemma parse_members_roundtrip (d : dict pyval) ms :
  Forall2 (fun kv m => fst m = fst kv /\ round_trips construct reg (snd kv) (snd m)) d ms ->
  parse_members construct reg None ms = Ok d.
Proof.
  intros H. apply mapM_Forall2.
  induction H as [|[k v] [k' j] d ms (Hk & _ & Hp) _ IH]; constructor; [|assumption].
  simpl in *. rewrite Hp. simpl. now subst.
Qed.

(** Every representable value is encoded, and decoding the encoding gives
    the value back. *)
Lemma roundtrip_value v : representable construct reg v -> exists j, round_trips construct reg v j.
Proof.
  induction v as [ | b | z | x | s | l IH | l IH | d IH | d IH | d IH | k l IH
                 | c attrs IHc IH | c IH | n]
    using pyval_ind; simpl; intros Hr; try contradiction.
  - exists JNull. split; [now apply (encodes_atom PyNone) | reflexivity].
  - exists (JBool b). split; [now apply (encodes_atom (PyBool b)) | reflexivity].
  - exists (JNum z). split; [now apply (encodes_atom (PyInt z)) | reflexivity].
  - exists (JFloat x). split; [|reflexivity].
    now apply encodes_of_dumps with (n := 1).
  - exists (JStr s). split; [now apply (encodes_atom (PyStr s)) | reflexivity].
  - destruct (roundtrip_elements l IH Hr) as [js Hjs]. exists (JArr js). split.
    + apply encodes_list. exists js. split; [reflexivity|].
      eapply Forall2_impl; [|exact Hjs]. now intros a b [? _].
    + simpl. assert (Hp : mapM (parse construct reg None) js = Ok l).
      { apply mapM_Forall2. clear - Hjs.
        induction Hjs as [|? ? ? ? [_ ?]]; constructor; assumption. }
      now rewrite Hp.
  - destruct Hr as (Hnd & Htag & Hall).
    destruct (roundtrip_members d IH Hall) as [ms Hms]. exists (JObj ms). split.
    + apply encodes_dict. exists ms. split; [reflexivity|].
      eapply Forall2_impl; [|exact Hms]. now intros a b (? & ? & _).
    + rewrite (parse_object _ _ _ _ (parse_members_roundtrip d ms Hms)).
      rewrite (dict_of_pairs_NoDup _ Hnd). simpl. unfold resolve.
      now rewrite (proj2 (dict_pop_None d TAG) Htag).
  - destruct Hr as (Hreg & Hwf & (kwargs & Hitems & Hinst) & Hall).
    pose proof Hwf as (_ & Hnd & Htag).
    destruct (well_formed_fields _ Hwf) as (fs & Hfs & Hnames).
    pose proof (getattr_items_keys _ _ _ _ Hitems) as Hk.
    rewrite <- Hk in Hnd, Htag.
    unfold field_items in Hitems. apply mapM_Forall2 in Hitems.
    assert (Hin : forall kv, In kv kwargs ->
                             In kv attrs /\ In (fst kv) (participating c)).
    { intros kv Hkv.
      destruct (Forall2_In_r _ _ _ _ Hitems Hkv) as (name & Hname & Hit).
      apply bind_Ok in Hit as (v & Hv & Hit). injection Hit as <-.
      apply getattr_Ok in Hv; [|intros ->; now apply Hwf].
      split; [now apply dict_get_In_pair | assumption]. }
    destruct (roundtrip_members kwargs) as [ms Hms].
    { apply Forall_forall. intros kv Hkv. rewrite Forall_forall in IH.
      apply IH. now apply Hin. }
    { apply All_In. intros kv Hkv. destruct (Hin kv Hkv) as (Hattrs & Hpart).
      exact (proj1 (All_In _ _) Hall kv Hattrs Hpart). }
    exists (JObj ((TAG, JStr (cname c)) :: ms)). split.
    + apply encodes_instance; [assumption|]. exists ms. split; [reflexivity|].
      eapply Forall2_impl_In; [exact (Forall2_compose _ _ _ _ _ Hitems Hms)|].
      intros name e Hname (it & Hit & He & Henc & _).
      apply bind_Ok in Hit as (v & Hv & Hit). injection Hit as <-. simpl in *.
      split; [assumption|]. exists v.
      split; [|assumption].
      apply getattr_Ok in Hv; [assumption | intros ->; now apply Hwf].
    + assert (Hp : parse_members construct reg None ((TAG, JStr (cname c)) :: ms)
                   = Ok ((TAG, PyStr (cname c)) :: kwargs)).
      { unfold parse_members. simpl.
        fold (parse_members construct reg None ms).
        now rewrite (parse_members_roundtrip kwargs ms Hms). }
      rewrite (parse_object _ _ _ _ Hp).
      assert (Hnd' : NoDup (keys ((TAG, PyStr (cname c)) :: kwargs)))
        by (simpl; now constructor).
      rewrite (dict_of_pairs_NoDup _ Hnd'), object_hook_passes by exact I.
      rewrite (resolve_registered reg _ (cname c) c fs);
        [| assumption | reflexivity | assumption | assumption].
      change (without TAG ((TAG, PyStr (cname c)) :: kwargs)) with (without TAG kwargs).
      rewrite (without_fresh kwargs TAG Htag).
      rewrite pop_fields_exact by congruence.
      change (dict_update [] kwargs) with (dict_of_pairs kwargs).
      rewrite (dict_of_pairs_NoDup _ Hnd). simpl.
      now rewrite Hinst.
Qed.
End RoundTrip.

(** C1, as the code has it: a record instance of a registered type that the
    constructor of the type, called with the instance's participating field
    values, returns again, these values being [None], booleans, integers,
    floats other than NaN, strings, lists, dicts whose keys are all strings
    other than ["__class__"], and nested such instances, is encoded, and
    decoding the encoding against the registry gives an equal instance.
    [plain_rebuilt] gives such instances: those of a type with the generated
    [__init__] and no [__post_init__] whose fields all participate and whose
    [InitVar]s have defaults. *)
Theorem roundtrip_instance (class_list : list class) reg (c : class) (attrs : dict pyval) :
  _build_serializable_classes_dict class_list = Ok reg ->
  representable construct reg (PyInst c attrs) ->
  exists j, encodes (PyInst c attrs) j
            /\ loads construct class_list None j = Ok (PyInst c attrs).
Proof.
  intros Hreg Hr. destruct (roundtrip_value reg _ Hr) as (j & Henc & Hdec).
  exists j. split; [assumption|]. unfold loads. now rewrite Hreg.
Qed.

(** * Further properties of the code *)

(** ** The registry builder *)

Lemma build_from_Ok class_list : forall result reg,
  build_from result class_list = Ok reg <->
  Forall (fun c => is_dataclass c = true) class_list
  /\ NoDup (map cname class_list)
  /\ (forall c, In c class_list -> ~ In (cname c) (keys result))
  /\ reg = result ++ registry_of class_list.
Proof.
  induction class_list as [|c l IH]; intros result reg; simpl.
  - rewrite app_nil_r. split.
    + intros H. injection H as <-. repeat split; try constructor. intros c [].
    + intros (_ & _ & _ & ->). reflexivity.
  - destruct (dict_mem result (cname c)) eqn:Hm.
    + apply dict_mem_true in Hm. split; [discriminate|].
      intros (_ & _ & H & _). exfalso. apply (H c); auto.
    + assert (Hfresh : ~ In (cname c) (keys result)).
      { intros Hin. apply dict_mem_true in Hin. congruence. }
      destruct (is_dataclass c) eqn:Hdc; simpl.
      * rewrite IH, (dict_set_fresh _ _ _ Hfresh). split.
        -- intros (Hall & Hnd & Hres & ->). repeat split.
           ++ now constructor.
           ++ constructor; [|assumption]. intros Hin.
              apply in_map_iff in Hin as (c' & Hc' & Hin).
              apply (Hres c' Hin). unfold keys. rewrite map_app, in_app_iff.
              right. simpl. auto.
           ++ intros c' [<-|Hin]; [assumption|]. intros Hk.
              apply (Hres c' Hin). unfold keys. rewrite map_app, in_app_iff. now left.
           ++ now rewrite <- app_assoc.
        -- intros (Hall & Hnd & Hres & ->).
           inversion Hall; subst. inversion Hnd as [|? ? Hnin Hnd']; subst.
           repeat split; try assumption.
           ++ intros c' Hin. unfold keys. rewrite map_app, in_app_iff. simpl.
              intros [Hk|[Hk|[]]].
              ** apply (Hres c'); auto.
              ** apply Hnin. apply in_map_iff. eauto.
           ++ now rewrite <- app_assoc.
      * split; [discriminate|]. intros (Hall & _). inversion Hall; congruence.
Qed.

(** X1: the registry is built exactly when every listed type is a dataclass
    and no two share a name; it then holds every type under its name, in the
    order of the list. *)
Theorem build_succeeds_iff (class_list : list class) reg :
  _build_serializable_classes_dict class_list = Ok reg <->
  Forall (fun c => is_dataclass c = true) class_list
  /\ NoDup (map cname class_list)
  /\ reg = registry_of class_list.
Proof.
  unfold _build_serializable_classes_dict. rewrite build_from_Ok. simpl.
  split; [tauto|]. intros (H1 & H2 & H3). repeat split; auto.
Qed.

Lemma keys_registry_of (l : list class) : keys (registry_of l) = map cname l.
Proof. unfold keys, registry_of. rewrite map_map. reflexivity. Qed.

(** X2: in a registry that was built, a name leads to a type exactly when
    the type is in the list under that name; every type found is a
    dataclass. *)
Theorem registry_lookup (class_list : list class) reg :
  _build_serializable_classes_dict class_list = Ok reg ->
  forall name c,
    dict_get reg name = Some c <->
    In c class_list /\ cname c = name /\ is_dataclass c = true.
Proof.
  intros H name c. unfold _build_serializable_classes_dict in H.
  apply build_from_Ok in H as (Hall & Hnd & _ & ->). simpl. split.
  - intros Hget. apply dict_get_In_pair in Hget.
    apply in_map_iff in Hget as (c' & Hc' & Hin). injection Hc' as <- <-.
    rewrite Forall_forall in Hall. auto.
  - intros (Hin & <- & _). apply dict_get_NoDup.
    + now rewrite keys_registry_of.
    + apply in_map_iff. eauto.
Qed.

(** X3: a type whose name is already registered stops the build with the
    duplicate-name error, dataclass or not, and nothing is decoded. *)
Theorem duplicate_name_rejected (pre : list class) (c : class) (post : list class) reg :
  _build_serializable_classes_dict pre = Ok reg ->
  In (cname c) (map cname pre) ->
  _build_serializable_classes_dict (pre ++ c :: post)
  = Raise (DuplicateNameError (cname c))
  /\ forall h j, loads construct (pre ++ c :: post) h j = Raise (DuplicateNameError (cname c)).
Proof.
  intros Hpre Hin.
  assert (H : _build_serializable_classes_dict (pre ++ c :: post)
              = Raise (DuplicateNameError (cname c))).
  { unfold _build_serializable_classes_dict in *.
    rewrite build_from_app, Hpre. simpl.
    assert (Hm : dict_mem reg (cname c) = true).
    { apply dict_mem_true. apply (build_from_keys _ _ _ Hpre). now right. }
    now rewrite Hm. }
  split; [assumption|]. intros h j. unfold loads. now rewrite H.
Qed.

Lemma dict_get_ext {V} (d d' : dict V) :
  NoDup (keys d) -> NoDup (keys d') -> (forall kv, In kv d <-> In kv d') ->
  forall k, dict_get d k = dict_get d' k.
Proof.
  intros Hnd Hnd' Hin k. destruct (dict_get d k) as [v|] eqn:E.
  - apply dict_get_In_pair, Hin in E. symmetry. now apply dict_get_NoDup.
  - destruct (dict_get d' k) as [v'|] eqn:E'; [|reflexivity].
    apply dict_get_In_pair, Hin in E'.
    rewrite (dict_get_NoDup d k v' Hnd E') in E. discriminate.
Qed.

Lemma mapM_ext_Forall {A B} (f g : A -> res B) l :
  Forall (fun a => f a = g a) l -> mapM f l = mapM g l.
Proof.
  induction 1 as [|a l Ha _ IH]; simpl; [reflexivity|]. now rewrite Ha, IH.
Qed.

Lemma resolve_ext reg reg' obj :
  (forall k, dict_get reg k = dict_get reg' k) -> resolve construct reg obj = resolve construct reg' obj.
Proof.
  intros H. unfold resolve.
  destruct (dict_pop obj TAG) as [[tag rest]|]; [|reflexivity].
  destruct tag; try reflexivity. now rewrite H.
Qed.

(** Decoding uses the registry through its lookups only. *)
Lemma parse_ext reg reg' h :
  (forall k, dict_get reg k = dict_get reg' k) ->
  forall j, parse construct reg h j = parse construct reg' h j.
Proof.
  intros H. induction j as [ | b | z | x | s | l IH | ms IH] using json_ind;
    try reflexivity; simpl.
  - now rewrite (mapM_ext_Forall _ _ _ IH).
  - assert (Hms : mapM (fun kv => v <- parse construct reg h (snd kv) ;; Ok (fst kv, v)) ms
                  = mapM (fun kv => v <- parse construct reg' h (snd kv) ;; Ok (fst kv, v)) ms).
    { apply mapM_ext_Forall. eapply Forall_impl; [|exact IH].
      intros kv Hkv. simpl in Hkv. now rewrite Hkv. }
    rewrite Hms. clear Hms. destruct (mapM _ ms) as [pairs|e]; simpl; [|reflexivity].
    unfold object_hook. destruct h as [hk|]; [|now apply resolve_ext].
    destruct (hk (dict_of_pairs pairs)); try reflexivity. now apply resolve_ext.
Qed.

(** X4: when the registry is built from a list, it is built from every
    rearrangement of the list, with the same lookups, and every document
    decodes alike: the order of [class_list] does not matter. *)
Theorem class_list_order_irrelevant (l l' : list class) reg :
  Permutation l l' ->
  _build_serializable_classes_dict l = Ok reg ->
  exists reg',
    _build_serializable_classes_dict l' = Ok reg'
    /\ (forall name, dict_get reg' name = dict_get reg name)
    /\ forall h j, loads construct l' h j = loads construct l h j.
Proof.
  intros Hperm Hreg. pose proof Hreg as Hreg0.
  unfold _build_serializable_classes_dict in Hreg.
  apply build_from_Ok in Hreg as (Hall & Hnd & _ & ->). simpl in *.
  assert (Hreg' : _build_serializable_classes_dict l' = Ok (registry_of l')).
  { apply build_from_Ok. repeat split.
    - eapply Permutation_Forall; eassumption.
    - eapply Permutation_NoDup; [|exact Hnd]. now apply Permutation_map.
    - intros c _ []. }
  assert (Hget : forall name, dict_get (registry_of l') name = dict_get (registry_of l) name).
  { apply dict_get_ext.
    - rewrite keys_registry_of. eapply Permutation_NoDup; [|exact Hnd].
      now apply Permutation_map.
    - now rewrite keys_registry_of.
    - intros kv. unfold registry_of. rewrite !in_map_iff.
      split; intros (c & Hc & Hin); exists c; split; try assumption.
      + eapply Permutation_in; [symmetry|]; eassumption.
      + eapply Permutation_in; eassumption. }
  exists (registry_of l'). split; [assumption|]. split; [assumption|].
  intros h j. unfold loads. rewrite Hreg', Hreg0. simpl. now apply parse_ext.
Qed.

Lemma mapM_Ok_map {A B} (f : A -> res B) (g : A -> B) l :
  Forall (fun a => f a = Ok (g a)) l -> mapM f l = Ok (map g l).
Proof.
  induction 1 as [|a l Ha _ IH]; simpl; [reflexivity|]. now rewrite Ha, IH.
Qed.

(** X5: a document in which no object has a ["__class__"] member decodes,
    whatever the registry, to what plain JSON parsing gives. *)
Theorem untagged_document_decodes_plainly reg (j : json) :
  tag_free j -> parse construct reg None j = Ok (plain_loads j).
Proof.
  induction j as [ | b | z | x | s | l IH | ms IH] using json_ind;
    simpl; intros Hfree; try reflexivity.
  - rewrite (mapM_Ok_map _ plain_loads); [reflexivity|].
    apply Forall_forall. intros x Hx. rewrite Forall_forall in IH.
    apply IH; [assumption|]. now apply (proj1 (All_In _ _) Hfree).
  - destruct Hfree as (Htag & Hfree).
    rewrite (mapM_Ok_map _ (fun kv => (fst kv, plain_loads (snd kv)))).
    + simpl. unfold resolve.
      rewrite (proj2 (dict_pop_None _ TAG)); [reflexivity|].
      rewrite keys_dict_of_pairs. unfold keys. now rewrite map_map.
    + apply Forall_forall. intros kv Hkv. rewrite Forall_forall in IH.
      rewrite (IH kv Hkv); [reflexivity|].
      now apply (proj1 (All_In _ _) Hfree).
Qed.

(** X6: a delegate hook that hands every object back untouched changes
    nothing: documents decode as without a delegate. *)
Theorem passing_delegate_is_neutral reg (hk : hook) :
  (forall obj, hk obj = HookSame obj) ->
  forall j, parse construct reg (Some hk) j = parse construct reg None j.
Proof.
  intros Hhk. induction j as [ | b | z | x | s | l IH | ms IH] using json_ind;
    try reflexivity; simpl.
  - now rewrite (mapM_ext_Forall _ _ _ IH).
  - assert (Hms : mapM (fun kv => v <- parse construct reg (Some hk) (snd kv) ;; Ok (fst kv, v)) ms
                  = mapM (fun kv => v <- parse construct reg None (snd kv) ;; Ok (fst kv, v)) ms).
    { apply mapM_ext_Forall. eapply Forall_impl; [|exact IH].
      intros kv Hkv. simpl in Hkv. now rewrite Hkv. }
    rewrite Hms. clear Hms. destruct (mapM _ ms) as [pairs|e]; simpl; [|reflexivity].
    now rewrite Hhk.
Qed.

(** ** Resolution by name *)

Lemma entries_of_without (obj : dict pyval) k names :
  ~ In k names -> entries_of (without k obj) names = entries_of obj names.
Proof.
  induction names as [|n names IH]; simpl; intros Hk; [reflexivity|].
  rewrite dict_get_without by (intros ->; tauto).
  rewrite IH by tauto. reflexivity.
Qed.

Lemma entries_of_ext (obj obj' : dict pyval) names :
  (forall k, dict_get obj k = dict_get obj' k) ->
  entries_of obj names = entries_of obj' names.
Proof.
  intros H. induction names as [|n names IH]; simpl; [reflexivity|].
  now rewrite H, IH.
Qed.

Lemma keys_entries_of (obj : dict pyval) names :
  (forall n, In n names -> In n (keys obj)) -> keys (entries_of obj names) = names.
Proof.
  induction names as [|n names IH]; simpl; intros H; [reflexivity|].
  destruct (dict_get obj n) as [v|] eqn:E.
  - simpl. rewrite IH; auto.
  - apply dict_get_None in E. exfalso. apply E, H. now left.
Qed.

Lemma keys_entries_of_incl (obj : dict pyval) names k :
  In k (keys (entries_of obj names)) -> In k names.
Proof.
  induction names as [|n names IH]; simpl; [auto|].
  destruct (dict_get obj n); simpl; intros H.
  - destruct H; auto.
  - auto.
Qed.

(** With every field at hand, the loop collects the fields in declaration
    order, whatever the order of the object. *)
Lemma pop_fields_kwargs cn : forall flds obj kwargs,
  NoDup (map fname flds) -> NoDup (keys obj) ->
  (forall n, In n (map fname flds) -> In n (keys obj)) ->
  pop_fields cn flds obj kwargs
  = Ok (dict_update kwargs (entries_of obj (map fname flds)),
        filter (fun kv => negb (existsb (String.eqb (fst kv)) (map fname flds))) obj).
Proof.
  induction flds as [|f flds IH]; intros obj kwargs Hnd Hobj Hall; simpl.
  - f_equal. f_equal. clear. induction obj; simpl; congruence.
  - inversion Hnd as [|? ? Hnin Hnd']; subst.
    destruct (dict_pop_Some obj (fname f) Hobj (Hall _ (or_introl eq_refl)))
      as (v & Hv & ->).
    rewrite IH; auto.
    + rewrite Hv, filter_without_names, entries_of_without by assumption.
      reflexivity.
    + now apply NoDup_without.
    + intros n Hn. apply keys_without. split; [congruence|]. apply Hall. now right.
Qed.

(** The resolution step on an object that has the tag of a registered,
    well-formed type and exactly its participating fields. *)
Lemma resolve_exact reg obj classname (cls : class) :
  NoDup (keys obj) -> dict_get obj TAG = Some (PyStr classname) ->
  dict_get reg classname = Some cls -> well_formed cls ->
  (forall k, In k (keys obj) <-> k = TAG \/ In k (participating cls)) ->
  resolve construct reg obj =
    match construct cls (entries_of obj (participating cls)) with
    | Ok attrs => Ok (PyInst cls attrs)
    | Raise e =>
        Raise (PyExc ValueError_
                 ("Instantiation of dataclass " ++ cname cls
                    ++ " failed. (Does it specify InitVars?)")%string
                 (Some e))
    end.
Proof.
  intros Hobj Htag Hreg Hwf Hkeys.
  destruct (well_formed_fields _ Hwf) as (fs & Hfs & Hnames).
  destruct Hwf as (_ & Hnd & Hnotag).
  rewrite (resolve_registered reg _ classname cls fs) by assumption.
  rewrite pop_fields_kwargs.
  - rewrite <- Hnames, filter_nil.
    + simpl. change (dict_update [] ?x) with (dict_of_pairs x).
      rewrite entries_of_without by assumption.
      rewrite dict_of_pairs_NoDup; [reflexivity|].
      rewrite keys_entries_of; [assumption|]. intros n Hn. apply Hkeys. now right.
    + intros [k v] Hin. simpl. apply negb_false_iff, existsb_exists. exists k.
      split; [|apply String.eqb_refl].
      assert (Hk : In k (keys (without TAG obj)))
        by (apply in_map_iff; now exists (k, v)).
      apply keys_without in Hk as (Hne & Hk). apply Hkeys in Hk. tauto.
  - now rewrite <- Hnames.
  - now apply NoDup_without.
  - rewrite <- Hnames. intros n Hn. apply keys_without. split.
    + intros ->. contradiction.
    + apply Hkeys. now right.
Qed.

Lemma resolve_Ok_keys reg obj classname (cls : class) v :
  NoDup (keys obj) -> dict_get obj TAG = Some (PyStr classname) ->
  dict_get reg classname = Some cls -> well_formed cls ->
  resolve construct reg obj = Ok v ->
  forall k, In k (keys obj) <-> k = TAG \/ In k (participating cls).
Proof.
  intros Hobj Htag Hreg Hwf Hv k.
  destruct (well_formed_fields _ Hwf) as (fs & Hfs & Hnames).
  rewrite (resolve_registered reg _ classname cls fs) in Hv by assumption.
  destruct (pop_fields classname (filter finit fs) (without TAG obj) [])
    as [[kw rest]|e] eqn:E; simpl in Hv; [|discriminate].
  destruct rest; [|discriminate].
  apply pop_fields_Ok in E as (Hall & Hrest). rewrite <- Hnames in Hall, Hrest.
  split.
  - intros Hk. destruct (string_dec k TAG) as [->|Hne]; [now left | right].
    destruct (Hrest k); [apply keys_without; now split | assumption | contradiction].
  - intros [->|Hk]; [now apply dict_get_In in Htag|].
    apply Hall in Hk. now apply keys_without in Hk.
Qed.

(** X7: a tagged object is matched to its type by name, not by position: it
    decodes to a value exactly when its keys are the tag and the participating
    field names, each once, and the constructor, given the member values under
    the field names in declaration order, returns the attributes of that
    value, an instance of the type. *)
Theorem decode_matches_by_name reg h ms pairs classname (cls : class) v :
  parse_members construct reg h ms = Ok pairs ->
  passes h (dict_of_pairs pairs) ->
  dict_get (dict_of_pairs pairs) TAG = Some (PyStr classname) ->
  dict_get reg classname = Some cls ->
  well_formed cls ->
  parse construct reg h (JObj ms) = Ok v <->
  (forall k, In k (keys ms) <-> k = TAG \/ In k (participating cls))
  /\ exists attrs,
       construct cls (entries_of (dict_of_pairs pairs) (participating cls)) = Ok attrs
       /\ v = PyInst cls attrs.
Proof.
  intros Hms Hpass Htag Hreg Hwf.
  assert (Hk : forall k, In k (keys (dict_of_pairs pairs)) <-> In k (keys ms)).
  { intros k. now rewrite keys_dict_of_pairs, (parse_members_keys _ _ _ _ Hms). }
  split.
  - intros Hv.
    rewrite (parse_object _ _ _ _ Hms), (object_hook_passes _ _ _ Hpass) in Hv.
    pose proof (resolve_Ok_keys reg _ classname cls v (NoDup_dict_of_pairs pairs)
                  Htag Hreg Hwf Hv) as Hkeys.
    split; [intros k; rewrite <- Hk; apply Hkeys|].
    rewrite (resolve_exact reg _ classname cls) in Hv; auto.
    + destruct (construct cls _) as [attrs|]; [|discriminate].
      injection Hv as <-. eauto.
    + apply NoDup_dict_of_pairs.
  - intros (Hkeys & attrs & Hinst & ->).
    rewrite (parse_object _ _ _ _ Hms), (object_hook_passes _ _ _ Hpass).
    rewrite (resolve_exact reg _ classname cls); auto.
    + now rewrite Hinst.
    + apply NoDup_dict_of_pairs.
    + intros k. rewrite Hk. apply Hkeys.
Qed.

Lemma mapM_Permutation {A B} (f : A -> res B) l l' :
  Permutation l l' ->
  forall r, mapM f l = Ok r -> exists r', mapM f l' = Ok r' /\ Permutation r r'.
Proof.
  induction 1 as [|x l l' _ IH|x y l|l l' l'' _ IH1 _ IH2]; intros r Hr; simpl in *.
  - injection Hr as <-. eauto.
  - apply bind_Ok in Hr as (b & Hb & Hr). apply bind_Ok in Hr as (bs & Hbs & Hr).
    injection Hr as <-. destruct (IH _ Hbs) as (bs' & -> & Hperm).
    rewrite Hb. simpl. eauto.
  - apply bind_Ok in Hr as (b & Hb & Hr). apply bind_Ok in Hr as (bs & Hbs & Hr).
    apply bind_Ok in Hbs as (c & Hc & Hbs). apply bind_Ok in Hbs as (cs & Hcs & Hbs).
    injection Hbs as <-. injection Hr as <-.
    rewrite Hc, Hb, Hcs. simpl. eexists. split; [reflexivity | apply perm_swap].
  - destruct (IH1 _ Hr) as (r' & Hr' & Hp1). destruct (IH2 _ Hr') as (r'' & Hr'' & Hp2).
    exists r''. split; [assumption|]. now apply perm_trans with r'.
Qed.

(** X8: the members of a tagged object may come in any order: an object that
    decodes to a value still decodes to it when its members are rearranged. *)
Theorem member_order_irrelevant reg h ms ms' pairs classname (cls : class) v :
  parse_members construct reg h ms = Ok pairs ->
  NoDup (keys ms) ->
  dict_get (dict_of_pairs pairs) TAG = Some (PyStr classname) ->
  dict_get reg classname = Some cls ->
  well_formed cls ->
  Permutation ms ms' ->
  (forall obj, passes h obj) ->
  parse construct reg h (JObj ms) = Ok v -> parse construct reg h (JObj ms') = Ok v.
Proof.
  intros Hms Hnd Htag Hreg Hwf Hperm Hpass Hv.
  destruct (mapM_Permutation _ _ _ Hperm _ Hms) as (pairs' & Hms' & Hpp).
  fold (parse_members construct reg h ms') in Hms'.
  pose proof (parse_members_keys _ _ _ _ Hms) as Hk.
  pose proof (parse_members_keys _ _ _ _ Hms') as Hk'.
  assert (Hnd' : NoDup (keys ms')).
  { eapply Permutation_NoDup; [|exact Hnd]. now apply Permutation_map. }
  assert (Hget : forall k, dict_get (dict_of_pairs pairs') k
                           = dict_get (dict_of_pairs pairs) k).
  { rewrite !dict_of_pairs_NoDup by congruence.
    apply dict_get_ext; try congruence.
    intros kv. split; apply Permutation_in; [symmetry|]; assumption. }
  rewrite (parse_object _ _ _ _ Hms), (object_hook_passes _ _ _ (Hpass _)) in Hv.
  pose proof (resolve_Ok_keys reg _ classname cls v (NoDup_dict_of_pairs pairs)
                Htag Hreg Hwf Hv) as Hkeys.
  rewrite (resolve_exact reg _ classname cls) in Hv;
    [| apply NoDup_dict_of_pairs | assumption | assumption | assumption
     | assumption].
  rewrite (parse_object _ _ _ _ Hms'), (object_hook_passes _ _ _ (Hpass _)).
  rewrite (resolve_exact reg _ classname cls).
  - now rewrite (entries_of_ext _ _ _ Hget).
  - apply NoDup_dict_of_pairs.
  - now rewrite Hget.
  - assumption.
  - assumption.
  - intros k. rewrite <- Hkeys, !keys_dict_of_pairs. unfold keys.
    split; apply Permutation_in; apply Permutation_map;
      [symmetry|]; assumption.
Qed.

(** The generated constructor rejects keyword arguments that lack a
    construction-only parameter without default. *)
Lemma generated_init_missing_initvar post (c : class) kwargs iv :
  is_dataclass c = true ->
  In iv (cinitvars c) -> snd iv = false -> ~ In (fst iv) (keys kwargs) ->
  exists e, generated_init post c kwargs = Raise e /\ exc_class_of e = TypeError_.
Proof.
  intros Hdc Hin Hdef Hk. unfold generated_init, bind_arguments.
  destruct (find _ (keys kwargs)); [eexists; split; reflexivity|].
  destruct (filter _ (required_params c)) eqn:E; [|eexists; split; reflexivity].
  exfalso.
  assert (Hm : In (fst iv) (filter (fun p => negb (dict_mem kwargs p))
                              (required_params c))).
  { apply filter_In. split.
    - unfold required_params, is_dataclass in *.
      destruct (cfields c); [|discriminate].
      apply in_app_iff. right. apply in_map, filter_In. split; [assumption|].
      now rewrite Hdef.
    - destruct (dict_mem kwargs (fst iv)) eqn:Hm; [|reflexivity].
      apply dict_mem_true in Hm. contradiction. }
  rewrite E in Hm. destruct Hm.
Qed.

(** X9: a registered type with a construction-only parameter ([InitVar])
    that has no default cannot be decoded: no object tagged with it decodes to
    a value, and one that has exactly the participating fields fails with the
    [ValueError] about the instantiation, whose cause is the constructor's
    [TypeError]. *)
Theorem initvar_without_default_fails post reg h ms pairs classname (cls : class) iv :
  (forall kwargs, construct cls kwargs = generated_init post cls kwargs) ->
  parse_members construct reg h ms = Ok pairs ->
  passes h (dict_of_pairs pairs) ->
  dict_get (dict_of_pairs pairs) TAG = Some (PyStr classname) ->
  dict_get reg classname = Some cls ->
  well_formed cls ->
  In iv (cinitvars cls) -> snd iv = false -> ~ In (fst iv) (participating cls) ->
  (forall v, parse construct reg h (JObj ms) <> Ok v)
  /\ ((forall k, In k (keys ms) <-> k = TAG \/ In k (participating cls)) ->
      exists cause,
        parse construct reg h (JObj ms)
        = Raise (PyExc ValueError_
                   ("Instantiation of dataclass " ++ cname cls
                      ++ " failed. (Does it specify InitVars?)")%string
                   (Some cause))
        /\ exc_class_of cause = TypeError_).
Proof.
  intros Hgen Hms Hpass Htag Hreg Hwf Hiv Hdef Hfresh.
  rewrite (parse_object _ _ _ _ Hms), (object_hook_passes _ _ _ Hpass).
  pose proof (NoDup_dict_of_pairs pairs) as Hnd.
  destruct (generated_init_missing_initvar post cls
              (entries_of (dict_of_pairs pairs) (participating cls)) iv
              (proj1 Hwf) Hiv Hdef)
    as (cause & Hcause & Hclass).
  { intros Hin. now apply keys_entries_of_incl in Hin. }
  rewrite <- Hgen in Hcause.
  split.
  - intros v Hv.
    pose proof (resolve_Ok_keys reg _ classname cls v Hnd Htag Hreg Hwf Hv) as Hkeys.
    rewrite (resolve_exact reg _ classname cls), Hcause in Hv by assumption.
    discriminate.
  - intros Hkeys. exists cause. split; [|assumption].
    rewrite (resolve_exact reg _ classname cls), Hcause; try assumption; [reflexivity|].
    intros k. rewrite keys_dict_of_pairs, (parse_members_keys _ _ _ _ Hms).
    apply Hkeys.
Qed.

(** ** More on the encoder *)

(** X11: an instance of a well-formed type is encodable exactly when it has
    every participating field and the value of each is encodable: a field the
    encoder cannot write makes the whole instance fail. *)
Theorem instance_encodable_iff (c : class) (attrs : dict pyval) :
  well_formed c ->
  (exists j, encodes (PyInst c attrs) j) <->
  (forall name, In name (participating c) ->
                exists v j, dict_get attrs name = Some v /\ encodes v j).
Proof.
  intros Hwf. split.
  - intros (j & Hj) name Hname.
    apply encodes_instance in Hj as (entries & _ & H); [|assumption].
    clear - H Hname. induction H as [|n e names entries (_ & v & Hv & He) _ IH].
    + contradiction.
    + destruct Hname as [<-|Hname]; [eauto | auto].
  - intros Hall.
    assert (H : exists entries,
               Forall2 (fun name e =>
                          fst e = name
                          /\ exists v, dict_get attrs name = Some v /\ encodes v (snd e))
                       (participating c) entries).
    { induction (participating c) as [|n names IH].
      - exists []. constructor.
      - destruct (Hall n (or_introl eq_refl)) as (v & j & Hv & Hj).
        destruct IH as [entries IH]; [intros; apply Hall; now right|].
        exists ((n, j) :: entries). constructor; [|assumption]. simpl. eauto. }
    destruct H as [entries H]. eexists. apply encodes_instance; eauto.
Qed.

(** What the resolution step returns is a dict or an instance. *)
Lemma resolve_Ok_shape reg obj v :
  resolve construct reg obj = Ok v ->
  (exists d, v = PyDict d) \/ (exists c attrs, v = PyInst c attrs).
Proof.
  intros Hobj. unfold resolve in Hobj.
  destruct (dict_pop obj TAG) as [[tag rest]|]; [|injection Hobj as <-; eauto].
  destruct tag; try discriminate.
  destruct (dict_get reg s) as [cls|]; [|discriminate].
  apply bind_Ok in Hobj as (flds & _ & Hobj).
  apply bind_Ok in Hobj as ([kw rest'] & _ & Hobj).
  destruct rest'; [|discriminate].
  destruct (construct cls kw); [|discriminate].
  injection Hobj as <-. eauto.
Qed.

(** X12: a mapping that is no dict is encoded as the dict of its items, and
    what it encodes to decodes to a dict or to an instance, never to the
    mapping. *)
Theorem mapping_encoded_as_dict (d : dict pyval) :
  NoDup (keys d) ->
  (forall j, encodes (PyMapping d) j <-> encodes (PyDict d) j)
  /\ (forall j reg v,
         encodes (PyMapping d) j -> parse construct reg None j = Ok v ->
         (exists d', v = PyDict d') \/ (exists c attrs, v = PyInst c attrs)).
Proof.
  intros Hnd.
  assert (H : forall j, encodes (PyMapping d) j <-> encodes (PyDict d) j).
  { intros j. rewrite encodes_default by reflexivity. simpl.
    rewrite (dict_of_pairs_NoDup _ Hnd). split.
    - intros (v' & Hv' & Hj). now injection Hv' as <-.
    - eauto. }
  split; [exact H|].
  intros j reg v Hj Hv. apply H, encodes_dict in Hj as (ms & -> & _).
  simpl in Hv. apply bind_Ok in Hv as (pairs & _ & Hv).
  now apply resolve_Ok_shape in Hv.
Qed.

(** ** [recursive_pop] *)

Lemma keys_pop_items key f (d : dict pyval) k :
  In k (keys (pop_items key f d)) <-> k <> key /\ In k (keys d).
Proof.
  induction d as [|[k0 v0] d IH]; simpl; [tauto|].
  destruct (String.eqb_spec k0 key) as [->|Hne]; simpl.
  - rewrite IH. intuition congruence.
  - rewrite IH. intuition congruence.
Qed.

Lemma pop_items_All key f (P : pyval -> Prop) (d : dict pyval) :
  Forall (fun kv => P (f (snd kv))) d ->
  All (fun kv => P (snd kv)) (pop_items key f d).
Proof.
  induction 1 as [|[k v] d Hv _ IH]; simpl; [exact I|].
  destruct (String.eqb k key); simpl; auto.
Qed.

Lemma pop_items_id key f (d : dict pyval) :
  ~ In key (keys d) -> All (fun kv => f (snd kv) = snd kv) d ->
  pop_items key f d = d.
Proof.
  induction d as [|[k v] d IH]; simpl; intros Hk Hall; [reflexivity|].
  destruct Hall as (Hv & Hall). simpl in Hv.
  destruct (String.eqb_spec k key) as [->|Hne]; [tauto|]. simpl.
  rewrite Hv, IH; tauto.
Qed.

Lemma is_key_spec key k : is_key key k = true <-> k = KStr key.
Proof.
  destruct k; simpl; try (split; [discriminate | congruence]).
  rewrite String.eqb_eq. split; congruence.
Qed.

Lemma keys_pop_items_k key f (d : list (pykey * pyval)) :
  ~ In (KStr key) (map fst (pop_items_k key f d)).
Proof.
  induction d as [|[k0 v0] d IH]; simpl; [tauto|].
  destruct (is_key key k0) eqn:E; simpl; [assumption|].
  intros [->|H]; [|tauto].
  assert (is_key key (KStr key) = true) by now apply is_key_spec.
  congruence.
Qed.

Lemma pop_items_k_All key f (P : pyval -> Prop) (d : list (pykey * pyval)) :
  Forall (fun kv => P (f (snd kv))) d ->
  All (fun kv => P (snd kv)) (pop_items_k key f d).
Proof.
  induction 1 as [|[k v] d Hv _ IH]; simpl; [exact I|].
  destruct (is_key key k); simpl; auto.
Qed.

Lemma pop_items_k_id key f (d : list (pykey * pyval)) :
  ~ In (KStr key) (map fst d) -> All (fun kv => f (snd kv) = snd kv) d ->
  pop_items_k key f d = d.
Proof.
  induction d as [|[k v] d IH]; simpl; intros Hk Hall; [reflexivity|].
  destruct Hall as (Hv & Hall). simpl in Hv.
  destruct (is_key key k) eqn:E; simpl.
  - apply is_key_spec in E. tauto.
  - rewrite Hv, IH; tauto.
Qed.

Lemma recursive_pop_free key v : key_free key (recursive_pop key v).
Proof.
  induction v as [ | b | z | x | s | l IH | l IH | d IH | d IH | d IH | k l IH
                   | c attrs IHc IH | c IH | n]
    using pyval_ind; simpl; try exact I.
  - apply All_In. intros x Hx. apply in_map_iff in Hx as (y & <- & Hy).
    rewrite Forall_forall in IH. now apply IH.
  - split.
    + rewrite keys_pop_items. tauto.
    + now apply pop_items_All.
  - split.
    + apply keys_pop_items_k.
    + now apply pop_items_k_All.
Qed.

Lemma recursive_pop_id key v : key_free key v -> recursive_pop key v = v.
Proof.
  induction v as [ | b | z | x | s | l IH | l IH | d IH | d IH | d IH | k l IH
                   | c attrs IHc IH | c IH | n]
    using pyval_ind; simpl; intros Hfree; try reflexivity.
  - f_equal. rewrite <- (map_id l) at 2. apply map_ext_in.
    intros x Hx. rewrite Forall_forall in IH. apply IH; [assumption|].
    now apply (proj1 (All_In _ _) Hfree).
  - destruct Hfree as (Hk & Hall). f_equal. apply pop_items_id; [assumption|].
    apply All_In. intros kv Hkv. rewrite Forall_forall in IH.
    apply IH; [assumption|]. now apply (proj1 (All_In _ _) Hall).
  - destruct Hfree as (Hk & Hall). f_equal. apply pop_items_k_id; [assumption|].
    apply All_In. intros kv Hkv. rewrite Forall_forall in IH.
    apply IH; [assumption|]. now apply (proj1 (All_In _ _) Hall).
Qed.

(** X13: [recursive_pop] leaves no dict with the key, down through dicts and
    lists; it changes nothing in a value that has none; popping twice is
    popping once. *)
Theorem recursive_pop_removes_key (key : string) (v : pyval) :
  key_free key (recursive_pop key v)
  /\ (key_free key v -> recursive_pop key v = v)
  /\ recursive_pop key (recursive_pop key v) = recursive_pop key v.
Proof.
  split; [apply recursive_pop_free|]. split; [apply recursive_pop_id|].
  apply recursive_pop_id, recursive_pop_free.
Qed.

(** ** Order of resolution *)

Lemma mapM_first_Raise {A B} (f : A -> res B) pre a post bs e :
  mapM f pre = Ok bs -> f a = Raise e -> mapM f (pre ++ a :: post) = Raise e.
Proof.
  revert bs. induction pre as [|x pre IH]; intros bs Hpre Ha; simpl in *.
  - now rewrite Ha.
  - apply bind_Ok in Hpre as (b & -> & Hpre).
    apply bind_Ok in Hpre as (bs' & Hbs' & _). simpl.
    now rewrite (IH _ Hbs' Ha).
Qed.

(** X14: values are resolved in document order, inner before outer: when the
    values before [j] decode and [j] fails, the enclosing array or object
    fails with the error of [j], whatever follows [j] and whatever the
    enclosing object itself is. *)
Theorem inner_failure_comes_first reg h (j : json) e :
  parse construct reg h j = Raise e ->
  (forall pre post vs,
      mapM (parse construct reg h) pre = Ok vs ->
      parse construct reg h (JArr (pre ++ j :: post)) = Raise e)
  /\ (forall pre k post pairs,
         parse_members construct reg h pre = Ok pairs ->
         parse construct reg h (JObj (pre ++ (k, j) :: post)) = Raise e).
Proof.
  intros Hj. split.
  - intros pre post vs Hpre. simpl.
    now rewrite (mapM_first_Raise _ pre j post vs e Hpre Hj).
  - intros pre k post pairs Hpre. simpl.
    rewrite (mapM_first_Raise _ pre (k, j) post pairs e Hpre); [reflexivity|].
    simpl. now rewrite Hj.
Qed.

(** ** Termination of the encoder *)

Lemma settled_bind {A B} (m : res A) (k : A -> res B) :
  settled m -> (forall a, settled (k a)) -> settled (bind m k).
Proof. destruct m; simpl; auto. Qed.

Lemma mapM_settles {A B} (F : nat -> A -> res B) l :
  Forall (fun a => exists n r, settled r /\ forall m, n <= m -> F m a = r) l ->
  exists n r, settled r /\ forall m, n <= m -> mapM (F m) l = r.
Proof.
  induction 1 as [|a l (n0 & r0 & Hs0 & H0) _ (n1 & r1 & Hs1 & H1)].
  - exists 0, (Ok []). split; [exact I | reflexivity].
  - exists (Nat.max n0 n1), (b <- r0 ;; bs <- r1 ;; Ok (b :: bs)). split.
    + apply settled_bind; [assumption|]. intros b.
      apply settled_bind; [assumption|]. intros bs. exact I.
    + intros m Hm. simpl. rewrite H0, H1 by lia. reflexivity.
Qed.

Lemma settles_list l : Forall settles l -> settles (PyList l).
Proof.
  intros H. destruct (mapM_settles dumps l H) as (n & r & Hs & Hr).
  exists (S n), (js <- r ;; Ok (JArr js)). split.
  - apply settled_bind; [assumption | intros; exact I].
  - intros m Hm. destruct m as [|m]; [lia|]. simpl. rewrite Hr by lia. reflexivity.
Qed.

Lemma settles_dict (d : dict pyval) :
  Forall (fun kv => settles (snd kv)) d -> settles (PyDict d).
Proof.
  intros H.
  destruct (mapM_settles (fun m kv => j <- dumps m (snd kv) ;; Ok (fst kv, j)) d)
    as (n & r & Hs & Hr).
  { eapply Forall_impl; [|exact H]. intros kv (n & r & Hs & Hr).
    exists n, (j <- r ;; Ok (fst kv, j)). split.
    - apply settled_bind; [assumption | intros; exact I].
    - intros m Hm. now rewrite Hr. }
  exists (S n), (ms <- r ;; Ok (JObj ms)). split.
  - apply settled_bind; [assumption | intros; exact I].
  - intros m Hm. destruct m as [|m]; [lia|]. simpl. rewrite Hr by lia. reflexivity.
Qed.

Lemma settles_default v v' :
  (forall n, dumps (S n) v = (o' <- default v ;; dumps n o')) ->
  default v = Ok v' -> settles v' -> settles v.
Proof.
  intros Heq Hdef (n & r & Hs & Hr). exists (S n), r. split; [assumption|].
  intros m Hm. destruct m as [|m]; [lia|]. rewrite Heq, Hdef. simpl. apply Hr. lia.
Qed.

Lemma settles_default_Raise v e :
  (forall n, dumps (S n) v = (o' <- default v ;; dumps n o')) ->
  default v = Raise e -> settled (@Raise json e) -> settles v.
Proof.
  intros Heq Hdef Hs. exists 1, (Raise e). split; [assumption|].
  intros m Hm. destruct m as [|m]; [lia|]. now rewrite Heq, Hdef.
Qed.

Lemma Forall_dict_set {V} (P : V -> Prop) (d : dict V) k v :
  Forall (fun kv => P (snd kv)) d -> P v ->
  Forall (fun kv => P (snd kv)) (dict_set d k v).
Proof.
  induction 1 as [|[k0 v0] d Hkv Hd IH]; simpl; intros Hv.
  - now constructor.
  - destruct (String.eqb k0 k); constructor; auto.
Qed.

Lemma Forall_dict_update (P : pyval -> Prop) (ps : dict pyval) : forall d,
  Forall (fun kv => P (snd kv)) d -> Forall (fun kv => P (snd kv)) ps ->
  Forall (fun kv => P (snd kv)) (dict_update d ps).
Proof.
  unfold dict_update.
  induction ps as [|[k v] ps IH]; intros d Hd Hps; simpl; [assumption|].
  inversion Hps; subst. apply IH; [|assumption].
  now apply Forall_dict_set.
Qed.

Lemma settles_dictk (d : list (pykey * pyval)) :
  Forall (fun kv => settles (snd kv)) d -> settles (PyDictK d).
Proof.
  intros H.
  destruct (mapM_settles (fun m kv => k <- json_key (fst kv) ;;
                                      j <- dumps m (snd kv) ;; Ok (k, j)) d)
    as (n & r & Hs & Hr).
  { eapply Forall_impl; [|exact H]. intros kv (n & r & Hs & Hr).
    exists n, (k <- json_key (fst kv) ;; j <- r ;; Ok (k, j)). split.
    - apply settled_bind.
      + destruct (fst kv) as [s|z|x|[|]| |t]; simpl; auto.
      + intros k. apply settled_bind; [assumption | intros; exact I].
    - intros m Hm. now rewrite Hr. }
  exists (S n), (ms <- r ;; Ok (JObj ms)). split.
  - apply settled_bind; [assumption | intros; exact I].
  - intros m Hm. destruct m as [|m]; [lia|]. simpl. rewrite Hr by lia. reflexivity.
Qed.

Lemma getattr_raise c attrs name e :
  getattr c attrs name = Raise e -> exc_class_of e = AttributeError_.
Proof.
  unfold getattr. destruct (String.eqb name "__class__"); [discriminate|].
  destruct (dict_get attrs name); [discriminate|].
  intros H. now injection H as <-.
Qed.

Lemma class_getattr_raise c name e :
  class_getattr c name = Raise e -> exc_class_of e = AttributeError_.
Proof.
  unfold class_getattr. destruct (String.eqb name "__class__"); [discriminate|].
  match goal with |- match ?x with _ => _ end = _ -> _ => destruct x end;
    [discriminate|].
  intros H. now injection H as <-.
Qed.

Lemma items_raise (get : string -> res pyval) names e :
  (forall name e', get name = Raise e' -> exc_class_of e' = AttributeError_) ->
  mapM (fun name => v <- get name ;; Ok (name, v)) names = Raise e ->
  exc_class_of e = AttributeError_.
Proof.
  intros Hget. induction names as [|n names IH]; simpl; [discriminate|].
  destruct (get n) eqn:E; simpl.
  - destruct (mapM _ names); simpl; [discriminate|].
    intros H. injection H as <-. now apply IH.
  - intros H. injection H as <-. eapply Hget; eassumption.
Qed.

Lemma settles_atom v j :
  (forall n, dumps (S n) v = Ok j) -> settles v.
Proof.
  intros H. exists 1, (Ok j). split; [exact I|].
  intros [|m] Hm; [lia | apply H].
Qed.

(** The class of classes is no dataclass: it is not encodable. *)
Lemma settles_type_class : settles (PyType type_class).
Proof.
  exists 1, (Raise (TypeError "Object of type type is not JSON serializable")).
  split; [now left|]. intros [|m] Hm; [lia | reflexivity].
Qed.

Lemma class_getattr_settles c name v :
  on_defaults settles c -> class_getattr c name = Ok v -> settles v.
Proof.
  unfold class_getattr, on_defaults. intros Hd H.
  destruct (String.eqb name "__class__").
  - injection H as <-. apply settles_type_class.
  - destruct (cfields c) as [fs|]; [|discriminate].
    destruct (find _ fs) as [f|] eqn:E; [|discriminate].
    apply find_some in E as (Hin & _).
    rewrite Forall_forall in Hd. specialize (Hd f Hin).
    destruct (ffactory f); [discriminate|].
    destruct (fdefault f); [|discriminate]. injection H as <-. exact Hd.
Qed.

(** What [default] makes of a dataclass or of an instance of one settles
    when the attributes it reads do. *)
Lemma settles_record v (c : class) (get : string -> res pyval) (tag : string) :
  (forall n, dumps (S n) v = (o' <- default v ;; dumps n o')) ->
  default v
  = (if is_dataclass c then
       cls_flds <- init_fields c ;;
       items <- mapM (fun f => x <- get (fname f) ;; Ok (fname f, x)) cls_flds ;;
       Ok (PyDict (dict_update [(TAG, PyStr tag)] items))
     else
       Raise (TypeError ("Object of type " ++ type_name v
                           ++ " is not JSON serializable")%string)) ->
  (forall name x, get name = Ok x -> settles x) ->
  (forall name e, get name = Raise e -> exc_class_of e = AttributeError_) ->
  settles v.
Proof.
  intros Heq Hdef Hok Hraise.
  case_eq (default v); [intros v' E | intros e E]; rewrite E in Hdef.
  - apply (settles_default _ v'); [assumption | assumption |].
    symmetry in Hdef. destruct (is_dataclass c); [|discriminate].
    apply bind_Ok in Hdef as (flds & _ & Hdef).
    apply bind_Ok in Hdef as (items & Hitems & Hdef). injection Hdef as <-.
    apply settles_dict. apply Forall_dict_update.
    + constructor; [|constructor]. simpl. now apply (settles_atom _ (JStr tag)).
    + apply mapM_Forall2 in Hitems. apply Forall_forall. intros it Hit.
      destruct (Forall2_In_r _ _ _ _ Hitems Hit) as (f & _ & Hf).
      apply bind_Ok in Hf as (x & Hx & Hf). injection Hf as <-. simpl.
      eapply Hok; eassumption.
  - apply (settles_default_Raise _ e); [assumption | assumption |].
    symmetry in Hdef. destruct (is_dataclass c) eqn:Hdc.
    + unfold init_fields, fields, is_dataclass in *.
      destruct (cfields c) as [fs|]; [|discriminate]. simpl in Hdef.
      destruct (mapM _ (filter finit fs)) eqn:E'; [discriminate|].
      simpl in Hdef. injection Hdef as <-.
      rewrite <- mapM_map with (g := fname)
        (f := fun name => x <- get name ;; Ok (name, x)) in E'.
      right. eapply items_raise; eassumption.
    + injection Hdef as <-. now left.
Qed.

(** X10: encoding terminates on every value: from some recursion limit on
    the outcome no longer depends on the limit, and it is JSON, a
    [TypeError] or an [AttributeError], not the exhaustion of the limit. *)
Theorem encoding_terminates (v : pyval) :
  exists n r, settled r /\ forall m, n <= m -> dumps m v = r.
Proof.
  change (settles v).
  induction v as [ | b | z | x | s | l IH | l IH | d IH | d IH | d IH | k l IH
                   | c attrs IHc IH | c IH | n]
    using pyval_ind.
  - now apply (settles_atom _ JNull).
  - now apply (settles_atom _ (JBool b)).
  - now apply (settles_atom _ (JNum z)).
  - now apply (settles_atom _ (JFloat x)).
  - now apply (settles_atom _ (JStr s)).
  - now apply settles_list.
  - destruct (settles_list l IH) as (n & r & Hs & Hr). exists n, r.
    split; [assumption|]. intros m Hm. rewrite <- (Hr m Hm).
    destruct m; reflexivity.
  - now apply settles_dict.
  - now apply settles_dictk.
  - apply (settles_default _ (PyDict (dict_of_pairs d))); try reflexivity.
    apply settles_dict. apply Forall_dict_update; [constructor | assumption].
  - apply (settles_default _ (PyList l)); try reflexivity. now apply settles_list.
  - apply (settles_record _ c (getattr c attrs) (cname c));
      [reflexivity | reflexivity | | apply getattr_raise].
    intros name x Hx. unfold getattr in Hx.
    destruct (String.eqb name "__class__").
    + injection Hx as <-.
      apply (settles_record _ c (class_getattr c) "type");
        [reflexivity | reflexivity | | apply class_getattr_raise].
      intros name' x. now apply class_getattr_settles.
    + destruct (dict_get attrs name) eqn:E; [|discriminate]. injection Hx as <-.
      apply dict_get_In_pair in E. rewrite Forall_forall in IH. exact (IH _ E).
  - apply (settles_record _ c (class_getattr c) "type");
      [reflexivity | reflexivity | | apply class_getattr_raise].
    intros name x. now apply class_getattr_settles.
  - apply (settles_default_Raise _ (TypeError
             ("Object of type " ++ n ++ " is not JSON serializable")%string));
      [reflexivity | reflexivity | now left].
Qed.

(** ** Errors of the decoder *)





(** ** No loss on representable values *)

(** X17: two representable values with the same encoding are equal, where
    the representable values are those of C1: among them the dicts whose
    keys are all strings, and no float that is NaN. *)
Theorem encoding_injective reg (v v' : pyval) (j : json) :
  representable construct reg v -> representable construct reg v' ->
  encodes v j -> encodes v' j -> v = v'.
Proof.
  intros Hr Hr' Hj Hj'.
  destruct (roundtrip_value reg v Hr) as (j0 & Henc & Hdec).
  destruct (roundtrip_value reg v' Hr') as (j0' & Henc' & Hdec').
  rewrite (encodes_fun _ _ _ Henc Hj) in Hdec.
  rewrite (encodes_fun _ _ _ Henc' Hj') in Hdec'.
  congruence.
Qed.
End Properties.

(** * Instances *)

Lemma roundtrip_instance_witness :
  let attrs := [("x", PyInt 1); ("y", PyList [PyStr "a"; PyNone])] in
  _build_serializable_classes_dict [class_Point] = Ok [("Point", class_Point)]
  /\ representable plain_init [("Point", class_Point)] (PyInst class_Point attrs)
  /\ exists j, encodes (PyInst class_Point attrs) j
               /\ loads plain_init [class_Point] None j = Ok (PyInst class_Point attrs).
Proof.
  intros attrs.
  assert (H1 : _build_serializable_classes_dict [class_Point]
               = Ok [("Point", class_Point)]) by reflexivity.
  assert (H2 : representable plain_init [("Point", class_Point)] (PyInst class_Point attrs)).
  { split; [reflexivity|]. split; [solve_well_formed|].
    split; [exists attrs; split; reflexivity|]. simpl. tauto. }
  split; [exact H1|]. split; [exact H2|].
  exact (roundtrip_instance plain_init [class_Point] _ class_Point attrs H1 H2).
Defined.

(** C1 fails on a field that holds a tuple: it comes back as a list. *)
Lemma roundtrip_tuple_counterexample :
  let r := point (PyTuple [PyInt 1; PyInt 2]) PyNone in
  let r' := point (PyList [PyInt 1; PyInt 2]) PyNone in
  let j := point_json (JArr [JNum 1; JNum 2]) JNull in
  encodes r j /\ loads plain_init [class_Point] None j = Ok r' /\ r' <> r.
Proof.
  split; [|split].
  - apply encodes_of_dumps with (n := 4). reflexivity.
  - reflexivity.
  - discriminate.
Qed.

(** Nor does a dict with a key that is no string come back: the key is
    written as a string, so [{1: 2}] returns as [{"1": 2}]. *)
Example roundtrip_changes_other_keys :
  let r := point (PyDictK [(KInt 1, PyInt 2)]) PyNone in
  let r' := point (PyDict [("1", PyInt 2)]) PyNone in
  let j := point_json (JObj [("1", JNum 2)]) JNull in
  encodes r j /\ loads plain_init [class_Point] None j = Ok r' /\ r' <> r.
Proof.
  split; [|split].
  - apply encodes_of_dumps with (n := 4). reflexivity.
  - reflexivity.
  - discriminate.
Qed.

(** Nor does an instance that its constructor does not return: with a
    [__post_init__] that resets [x], a [Point] whose [x] was assigned later
    comes back with [x] reset, though every field of [Point] participates and
    it has no [InitVar]. *)
Example roundtrip_needs_rebuilding :
  let construct := generated_init (Some resetting_post_init) in
  let j := point_json (JNum 1) JNull in
  plain_class class_Point
  /\ encodes (point (PyInt 1) PyNone) j
  /\ loads construct [class_Point] None j = Ok (point PyNone PyNone)
  /\ ~ rebuilt construct class_Point [("x", PyInt 1); ("y", PyNone)].
Proof.
  split; [|split; [|split]].
  - split; reflexivity.
  - apply encodes_of_dumps with (n := 3). reflexivity.
  - reflexivity.
  - intros (kwargs & Hk & Hc). injection Hk as <-. discriminate.
Qed.

(** A float other than NaN comes back as it is. *)
Example roundtrip_float :
  let r := point (PyFloat "1.5") (PyFloat "-Infinity") in
  representable plain_init [("Point", class_Point)] r
  /\ encodes r (point_json (JFloat "1.5") (JFloat "-Infinity"))
  /\ loads plain_init [class_Point] None
           (point_json (JFloat "1.5") (JFloat "-Infinity")) = Ok r.
Proof.
  split; [|split].
  - split; [reflexivity|]. split; [solve_well_formed|].
    split; [eexists; split; reflexivity|].
    simpl. repeat split; intros _; discriminate.
  - apply encodes_of_dumps with (n := 3). reflexivity.
  - reflexivity.
Qed.

Lemma encoder_emits_tagged_object_witness :
  well_formed class_Point
  /\ encodes (point (PyInt 1) PyNone) (point_json (JNum 1) JNull).
Proof.
  assert (H : well_formed class_Point) by solve_well_formed.
  split; [exact H|].
  apply (proj1 (encoder_emits_tagged_object class_Point
                  [("x", PyInt 1); ("y", PyNone)] H)).
  exists [("x", JNum 1); ("y", JNull)]. split; [reflexivity|].
  repeat constructor; simpl; eexists; (split; [reflexivity|]);
    apply encodes_of_dumps with (n := 1); reflexivity.
Defined.

Lemma iterable_encoded_as_array_witness :
  encodes (PyIterable KSet [PyInt 1; PyInt 2]) (JArr [JNum 1; JNum 2])
  /\ encodes (PyIterable KGenerator [PyInt 1; PyInt 2]) (JArr [JNum 1; JNum 2]).
Proof.
  split;
    (apply (proj1 (iterable_encoded_as_array plain_init _ [PyInt 1; PyInt 2]));
     exists [JNum 1; JNum 2]; split; [reflexivity|];
     repeat constructor; apply encodes_of_dumps with (n := 1); reflexivity).
Defined.

Lemma nested_resolution_witness :
  dict_get [("A", class_A)] "A" = Some class_A
  /\ parse plain_init [("A", class_A)] None nested_A_json = Ok (nested_A_value class_A).
Proof.
  split; [reflexivity|].
  apply (nested_resolution plain_init [("A", class_A)] class_A None None false false);
    reflexivity.
Defined.

Lemma missing_field_error_witness :
  let reg := [("Point", class_Point)] in
  let ms := [("__class__", JStr "Point"); ("x", JNum 1); ("y", JNull);
             ("z", JBool true)] in
  well_formed class_Point
  /\ participating class_Point = ["x"] ++ "y" :: []
  /\ parse plain_init reg None (JObj (without "y" ms)) = Raise (MissingFieldError "y" "Point").
Proof.
  intros reg ms.
  assert (H : well_formed class_Point) by solve_well_formed.
  split; [exact H|]. split; [reflexivity|].
  apply (missing_field_error plain_init reg None ms
           [("__class__", PyStr "Point"); ("x", PyInt 1); ("y", PyNone);
            ("z", PyBool true)]
           "Point" class_Point ["x"] "y" []);
    try reflexivity; try exact H; try exact I.
  simpl. intuition.
Defined.

Lemma extraneous_field_error_witness :
  let reg := [("Point", class_Point)] in
  let ms := [("__class__", JStr "Point"); ("z", JNull); ("x", JNum 1);
             ("y", JNull); ("w", JNull)] in
  well_formed class_Point
  /\ parse plain_init reg None (JObj ms) = Raise (ExtraneousFieldError "Point" ["z"; "w"]).
Proof.
  intros reg ms.
  assert (H : well_formed class_Point) by solve_well_formed.
  split; [exact H|].
  apply (proj1 (extraneous_field_error plain_init reg None ms
                  [("__class__", PyStr "Point"); ("z", PyNone); ("x", PyInt 1);
                   ("y", PyNone); ("w", PyNone)]
                  "Point" class_Point eq_refl I eq_refl eq_refl H)).
  - simpl. intuition.
  - discriminate.
Defined.

(** C6 fails as stated: the exception is a [ValueError], no [TypeError]. *)
Lemma invalid_tag_counterexample :
  loads plain_init [class_Point] None (JObj [("__class__", JNum 1)])
  = Raise (ValueError "Invalid type for class name (__class__): expected str, found int")
  /\ forall msg cause,
       loads plain_init [class_Point] None (JObj [("__class__", JNum 1)])
       <> Raise (PyExc TypeError_ msg cause).
Proof.
  split; [reflexivity | discriminate].
Qed.

Lemma invalid_tag_error_witness :
  let ms := [("__class__", JNum 1); ("x", JNull)] in
  (forall s, PyInt 1 <> PyStr s)
  /\ parse plain_init [("Point", class_Point)] None (JObj ms) = Raise (InvalidTagError (PyInt 1))
  /\ exists e, parse plain_init [("Point", class_Point)] None (JArr [JNull; JObj ms]) = Raise e.
Proof.
  intros ms.
  assert (H : forall s, PyInt 1 <> PyStr s) by discriminate.
  destruct (invalid_tag_error plain_init [("Point", class_Point)] None ms
              [("__class__", PyInt 1); ("x", PyNone)] (PyInt 1)
              eq_refl I eq_refl H) as (H1 & _ & H2).
  split; [exact H|]. split; [exact H1|].
  apply H2. apply occurs_arr with (j := JObj ms); [simpl; tauto | constructor].
Defined.

Lemma unregistered_type_error_witness :
  let ms := [("__class__", JStr "Q"); ("x", JNull)] in
  dict_get [("Point", class_Point)] "Q" = None
  /\ parse plain_init [("Point", class_Point)] None (JObj ms) = Raise (UnregisteredTypeError "Q")
  /\ exists e, parse plain_init [("Point", class_Point)] None (JArr [JNull; JObj ms]) = Raise e.
Proof.
  intros ms.
  destruct (unregistered_type_error plain_init [("Point", class_Point)] None ms
              [("__class__", PyStr "Q"); ("x", PyNone)] "Q"
              eq_refl I eq_refl eq_refl) as (H1 & H2).
  split; [reflexivity|]. split; [exact H1|].
  apply H2. apply occurs_arr with (j := JObj ms); [simpl; tauto | constructor].
Defined.

Lemma delegate_priority_witness :
  let hk : hook := fun _ => HookOther (PyStr "replaced") in
  let ms := [("__class__", JStr "Point"); ("x", JNull); ("y", JNull)] in
  parse plain_init [("Point", class_Point)] (Some hk) (JObj ms) = Ok (PyStr "replaced")
  /\ parse plain_init [("Point", class_Point)] None (JObj ms) = Ok (point PyNone PyNone).
Proof.
  intros hk ms. split; [|reflexivity].
  apply (proj1 (delegate_priority plain_init [("Point", class_Point)] hk ms
                  [("__class__", PyStr "Point"); ("x", PyNone); ("y", PyNone)]
                  (PyStr "replaced") eq_refl eq_refl)).
Defined.

Lemma build_checks_duplicate_first_witness :
  _build_serializable_classes_dict [class_Point] = Ok [("Point", class_Point)]
  /\ _build_serializable_classes_dict ([class_Point] ++ [class_Plain "Point"])
     = Raise (DuplicateNameError "Point")
  /\ _build_serializable_classes_dict ([class_Point] ++ [class_Plain "Other"; class_Point])
     = Raise (NotARecordTypeError "Other").
Proof.
  split; [reflexivity|]. split.
  - apply (proj1 (build_checks_duplicate_first [class_Point] (class_Plain "Point") []
                    [("Point", class_Point)] eq_refl eq_refl)).
    simpl. tauto.
  - apply (proj2 (build_checks_duplicate_first [class_Point] (class_Plain "Other")
                    [class_Point] [("Point", class_Point)] eq_refl eq_refl)).
    simpl. intros [H|[]]. discriminate.
Defined.

(** A field that does not participate is not written, and the decoder sets
    it from its default: an instance round-trips only while that field holds
    the default. *)
Example roundtrip_skips_non_participating :
  let reg := [("Counter", class_Counter)] in
  let fresh := PyInst class_Counter [("name", PyStr "a"); ("hits", PyInt 0)] in
  let used := PyInst class_Counter [("name", PyStr "a"); ("hits", PyInt 5)] in
  let j := JObj [("__class__", JStr "Counter"); ("name", JStr "a")] in
  representable plain_init reg fresh
  /\ encodes fresh j /\ encodes used j /\ parse plain_init reg None j = Ok fresh.
Proof.
  split; [|split; [|split]].
  - split; [reflexivity|]. split; [solve_well_formed|].
    split; [exists [("name", PyStr "a")]; split; reflexivity|]. simpl. tauto.
  - apply encodes_of_dumps with (n := 3). reflexivity.
  - apply encodes_of_dumps with (n := 3). reflexivity.
  - reflexivity.
Qed.

Lemma registry_lookup_witness :
  _build_serializable_classes_dict [class_A; class_Point]
  = Ok [("A", class_A); ("Point", class_Point)]
  /\ dict_get [("A", class_A); ("Point", class_Point)] "Point" = Some class_Point.
Proof.
  split; [reflexivity|].
  apply (proj2 (registry_lookup [class_A; class_Point] _ eq_refl "Point" class_Point)).
  split; [simpl; tauto | split; reflexivity].
Defined.

Lemma duplicate_name_rejected_witness :
  _build_serializable_classes_dict [class_Point] = Ok [("Point", class_Point)]
  /\ In "Point" (map cname [class_Point])
  /\ loads plain_init ([class_Point] ++ [class_Point]) None JNull
     = Raise (DuplicateNameError "Point").
Proof.
  split; [reflexivity|]. split; [simpl; tauto|].
  apply (proj2 (duplicate_name_rejected plain_init [class_Point] class_Point []
                  [("Point", class_Point)] eq_refl (or_introl eq_refl))).
Defined.

Lemma class_list_order_irrelevant_witness :
  Permutation [class_A; class_Point] [class_Point; class_A]
  /\ _build_serializable_classes_dict [class_A; class_Point]
     = Ok [("A", class_A); ("Point", class_Point)]
  /\ exists reg',
       _build_serializable_classes_dict [class_Point; class_A] = Ok reg'
       /\ (forall name, dict_get reg' name
                        = dict_get [("A", class_A); ("Point", class_Point)] name)
       /\ forall h j, loads plain_init [class_Point; class_A] h j
                      = loads plain_init [class_A; class_Point] h j.
Proof.
  assert (H : Permutation [class_A; class_Point] [class_Point; class_A])
    by apply perm_swap.
  split; [exact H|]. split; [reflexivity|].
  exact (class_list_order_irrelevant plain_init _ _ _ H eq_refl).
Defined.

Lemma untagged_document_decodes_plainly_witness :
  let j := JObj [("id", JStr "1"); ("ref", JObj [("id", JStr "2"); ("ref", JNull)])] in
  tag_free j
  /\ parse plain_init [("A", class_A)] None j
     = Ok (PyDict [("id", PyStr "1");
                   ("ref", PyDict [("id", PyStr "2"); ("ref", PyNone)])]).
Proof.
  intros j.
  assert (H : tag_free j).
  { simpl. repeat split; try exact I; intuition discriminate. }
  split; [exact H|].
  exact (untagged_document_decodes_plainly plain_init [("A", class_A)] j H).
Defined.

Lemma passing_delegate_is_neutral_witness :
  (forall obj : dict pyval, (fun o => HookSame o) obj = HookSame obj)
  /\ parse plain_init [("A", class_A)] (Some (fun o => HookSame o)) nested_A_json
     = Ok (nested_A_value class_A).
Proof.
  split; [reflexivity|].
  exact (eq_trans
           (passing_delegate_is_neutral plain_init [("A", class_A)] (fun o => HookSame o)
              (fun _ => eq_refl) nested_A_json)
           eq_refl).
Defined.

Lemma decode_matches_by_name_witness :
  let reg := [("Point", class_Point)] in
  let ms := [("y", JNull); ("__class__", JStr "Point"); ("x", JNum 1)] in
  well_formed class_Point
  /\ parse plain_init reg None (JObj ms) = Ok (point (PyInt 1) PyNone).
Proof.
  intros reg ms.
  assert (H : well_formed class_Point) by solve_well_formed.
  split; [exact H|].
  apply (proj2 (decode_matches_by_name plain_init reg None ms
                  [("y", PyNone); ("__class__", PyStr "Point"); ("x", PyInt 1)]
                  "Point" class_Point (point (PyInt 1) PyNone)
                  eq_refl I eq_refl eq_refl H)).
  split; [intros k; simpl; intuition|].
  exists [("x", PyInt 1); ("y", PyNone)]. split; reflexivity.
Defined.

Lemma member_order_irrelevant_witness :
  let reg := [("Point", class_Point)] in
  let ms := [("__class__", JStr "Point"); ("x", JNum 1); ("y", JNull)] in
  let ms' := [("y", JNull); ("x", JNum 1); ("__class__", JStr "Point")] in
  well_formed class_Point /\ NoDup (keys ms) /\ Permutation ms ms'
  /\ parse plain_init reg None (JObj ms') = Ok (point (PyInt 1) PyNone).
Proof.
  intros reg ms ms'.
  assert (H : well_formed class_Point) by solve_well_formed.
  assert (Hnd : NoDup (keys ms))
    by (repeat constructor; simpl; intuition discriminate).
  assert (Hp : Permutation ms ms').
  { apply perm_trans with [("x", JNum 1); ("__class__", JStr "Point"); ("y", JNull)].
    - apply perm_swap.
    - apply perm_trans with [("x", JNum 1); ("y", JNull); ("__class__", JStr "Point")].
      + apply perm_skip, perm_swap.
      + apply perm_swap. }
  split; [exact H|]. split; [exact Hnd|]. split; [exact Hp|].
  exact (member_order_irrelevant plain_init reg None ms ms'
           [("__class__", PyStr "Point"); ("x", PyInt 1); ("y", PyNone)]
           "Point" class_Point (point (PyInt 1) PyNone)
           eq_refl Hnd eq_refl eq_refl H Hp (fun _ => I) eq_refl).
Defined.

Lemma initvar_without_default_fails_witness :
  let reg := [("Scaled", class_Scaled)] in
  let ms := [("__class__", JStr "Scaled"); ("x", JNum 1)] in
  well_formed class_Scaled
  /\ In ("factor", false) (cinitvars class_Scaled)
  /\ exists cause,
       parse plain_init reg None (JObj ms)
       = Raise (PyExc ValueError_
                  "Instantiation of dataclass Scaled failed. (Does it specify InitVars?)"
                  (Some cause))
       /\ exc_class_of cause = TypeError_.
Proof.
  intros reg ms.
  assert (H : well_formed class_Scaled) by solve_well_formed.
  split; [exact H|]. split; [simpl; tauto|].
  apply (proj2 (initvar_without_default_fails plain_init None reg None ms
                  [("__class__", PyStr "Scaled"); ("x", PyInt 1)]
                  "Scaled" class_Scaled ("factor", false)
                  (fun _ => eq_refl) eq_refl I eq_refl eq_refl H (or_introl eq_refl) eq_refl
                  ltac:(simpl; intuition discriminate))).
  intros k. simpl. intuition.
Defined.

(** The cause is the interpreter's complaint about the missing argument. *)
Example initvar_cause_message :
  parse plain_init [("Scaled", class_Scaled)] None
        (JObj [("__class__", JStr "Scaled"); ("x", JNum 1)])
  = Raise (PyExc ValueError_
             "Instantiation of dataclass Scaled failed. (Does it specify InitVars?)"
             (Some (TypeError
                      "Scaled.__init__() missing 1 required positional argument: 'factor'"))).
Proof. reflexivity. Qed.

Lemma instance_encodable_iff_witness :
  well_formed class_Point
  /\ ~ exists j, encodes (point (PyInt 1) (PyObject "datetime")) j.
Proof.
  assert (H : well_formed class_Point) by solve_well_formed.
  split; [exact H|]. intros Hj.
  apply (proj1 (instance_encodable_iff class_Point
                  [("x", PyInt 1); ("y", PyObject "datetime")] H)) with (name := "y")
    in Hj; [|simpl; tauto].
  destruct Hj as (v & j & Hv & [n Hj]). simpl in Hv. injection Hv as <-.
  specialize (Hj (S n) (Nat.le_succ_diag_r n)). discriminate.
Defined.

Lemma mapping_encoded_as_dict_witness :
  NoDup (keys [("a", PyInt 1); ("b", PyNone)])
  /\ encodes (PyMapping [("a", PyInt 1); ("b", PyNone)])
             (JObj [("a", JNum 1); ("b", JNull)]).
Proof.
  assert (H : NoDup (keys [("a", PyInt 1); ("b", PyNone)]))
    by (repeat constructor; simpl; intuition discriminate).
  split; [exact H|].
  apply (proj1 (mapping_encoded_as_dict plain_init _ H)).
  apply encodes_of_dumps with (n := 2). reflexivity.
Defined.

Lemma inner_failure_comes_first_witness :
  let inner := JObj [("__class__", JStr "Point"); ("x", JNull)] in
  parse plain_init [("Point", class_Point)] None inner = Raise (MissingFieldError "y" "Point")
  /\ parse plain_init [("Point", class_Point)] None
           (JObj [("__class__", JStr "Unknown"); ("a", inner); ("b", JNum 1)])
     = Raise (MissingFieldError "y" "Point").
Proof.
  intros inner. split; [reflexivity|].
  apply (proj2 (inner_failure_comes_first plain_init [("Point", class_Point)] None inner
                  (MissingFieldError "y" "Point") eq_refl)
           [("__class__", JStr "Unknown")] "a" [("b", JNum 1)]
           [("__class__", PyStr "Unknown")] eq_refl).
Defined.


Lemma encoding_injective_witness :
  representable plain_init [] (PyList [PyInt 1; PyStr "a"])
  /\ encodes (PyList [PyInt 1; PyStr "a"]) (JArr [JNum 1; JStr "a"])
  /\ PyList [PyInt 1; PyStr "a"] = PyList [PyInt 1; PyStr "a"].
Proof.
  assert (Hr : representable plain_init [] (PyList [PyInt 1; PyStr "a"])) by (simpl; tauto).
  assert (He : encodes (PyList [PyInt 1; PyStr "a"]) (JArr [JNum 1; JStr "a"])).
  { apply encodes_of_dumps with (n := 2). reflexivity. }
  split; [exact Hr|]. split; [exact He|].
  exact (encoding_injective plain_init [] _ _ _ Hr Hr He He).
Defined.

Lemma build_succeeds_iff_witness :
  _build_serializable_classes_dict [class_A; class_Point]
  = Ok (registry_of [class_A; class_Point])
  /\ forall reg, _build_serializable_classes_dict [class_A; class_Plain "B"] <> Ok reg.
Proof.
  split.
  - apply (proj2 (build_succeeds_iff [class_A; class_Point] _)).
    split; [repeat constructor|]. split; [|reflexivity].
    repeat constructor; simpl; intuition discriminate.
  - intros reg H.
    apply (proj1 (build_succeeds_iff [class_A; class_Plain "B"] reg)) in H
      as (Hall & _).
    inversion Hall as [|? ? _ Hall']. inversion Hall'. discriminate.
Defined.

Lemma encoding_terminates_witness :
  exists n r, settled r
              /\ forall m, n <= m ->
                           dumps m (point (PyTuple [PyInt 1]) (PyObject "datetime")) = r.
Proof.
  exact (encoding_terminates (point (PyTuple [PyInt 1]) (PyObject "datetime"))).
Defined.

Lemma recursive_pop_removes_key_witness :
  let v := PyDict [("__class__", PyStr "A"); ("id", PyStr "1");
                   ("ref", PyList [PyDict [("__class__", PyStr "A")]])] in
  recursive_pop "__class__" v = PyDict [("id", PyStr "1"); ("ref", PyList [PyDict []])]
  /\ key_free "__class__" (recursive_pop "__class__" v).
Proof.
  intros v. split; [reflexivity|].
  exact (proj1 (recursive_pop_removes_key "__class__" v)).
Defined.